(** * Hexagonal lattice arithmetic of ARMI ([armi/utils/hexagon.py])

    A shallow embedding of the ring arithmetic and of the rotation of
    per-cell data on a hexagonal lattice, with the properties proved
    about them.

    Python integers are [Z]; a Python [float] is an IEEE-754 binary64
    number, modelled by the Standard Library's [spec_float] (precision
    53, maximal exponent 1024) with its correctly rounded operations, so
    that [math.sqrt], the addition and the product of
    [numRingsToHoldNumCells] round exactly as they do in CPython.
    Exceptions are values of [result].

    Two collaborators of [rotateHexCellData] are not part of the sources:
    [iterables.pivot], modelled from its description as far as that goes,
    and numpy, whose conversion of the items of a list is a parameter of
    the model. *)

From Stdlib Require Import ZArith Lia SpecFloat Zpower String DecimalString.
From stdpp Require Import base list.

Local Open Scope Z_scope.

(** * Results and exceptions *)

Inductive exn : Set :=
  | ValueError
  | TypeError
  | OverflowError
  | IndexError.

Inductive result (A : Type) : Type :=
  | Ok (a : A)
  | Raise (e : exn).

Arguments Ok {A} a.
Arguments Raise {A} e.

#[global] Instance result_ret : MRet result := fun A a => Ok a.

#[global] Instance result_bind : MBind result := fun A B f m =>
  match m with
  | Ok a => f a
  | Raise e => Raise e
  end.

(** * Python floats *)

Module Float64.

Definition prec : Z := 53.
Definition emax : Z := 1024.

Definition float : Type := spec_float.

(** [float(k)] for an integer [k]: rounded to nearest, ties to even;
    [OverflowError] when the result does not fit a double. *)
Definition of_int (k : Z) : result float :=
  match binary_normalize prec emax k 0 false with
  | S754_infinity _ => Raise OverflowError
  | x => Ok x
  end.

(** The literals [1] (converted by the mixed addition) and [0.5]. *)
Definition one : float := S754_finite false 4503599627370496 (-52).
Definition half : float := S754_finite false 4503599627370496 (-53).

Definition add (x y : float) : float := SFadd prec emax x y.
Definition mul (x y : float) : float := SFmul prec emax x y.
Definition div (x y : float) : float := SFdiv prec emax x y.
Definition neg (x : float) : float := SFopp x.

(** The literal [3.0]. *)
Definition three : float := S754_finite false 6755399441055744 (-51).

(** [math.sqrt]: a domain error on negative arguments. *)
Definition sqrt (x : float) : result float :=
  match x with
  | S754_finite true _ _ | S754_infinity true => Raise ValueError
  | _ => Ok (SFsqrt prec emax x)
  end.

(** [math.ceil]: the least integer not below [x], as a Python [int]. *)
Definition ceil (x : float) : result Z :=
  match x with
  | S754_nan => Raise ValueError
  | S754_infinity _ => Raise OverflowError
  | S754_zero _ => Ok 0
  | S754_finite s m e =>
      let v := if s then Zneg m else Zpos m in
      Ok (if 0 <=? e then v * 2 ^ e else - (- v / 2 ^ (- e)))
  end.

End Float64.

(** * Hexagon geometry *)

(** [SQRT3 = math.sqrt(3.0)] *)
Definition SQRT3 : Float64.float := SFsqrt Float64.prec Float64.emax Float64.three.

(** [side] and [pitch] on a [float] argument; the division cannot fail,
    [SQRT3] not being zero. *)
Definition side (pitch : Float64.float) : Float64.float := Float64.div pitch SQRT3.

Definition pitch (side : Float64.float) : Float64.float := Float64.mul side SQRT3.

(** * Ring arithmetic *)

(** [int(math.ceil(0.5 * (1 + math.sqrt(1 + 4 * (numCells - 1) // 3))))],
    where [*] and [//] associate to the left. *)
Definition numRingsToHoldNumCells (numCells : Z) : result Z :=
  if numCells =? 0 then Ok 0
  else
    x ← Float64.of_int (1 + 4 * (numCells - 1) / 3);
    root ← Float64.sqrt x;
    Float64.ceil (Float64.mul Float64.half (Float64.add Float64.one root)).

Definition numPositionsInRing (ring : Z) : Z :=
  if negb (ring =? 1) then (ring - 1) * 6 else 1.

Definition totalPositionsUpToRing (ring : Z) : Z :=
  1 + 3 * ring * (ring - 1).

(** * Rotation of one cell index *)

Definition getIndexOfRotatedCell (initialCellIndex orientationNumber : Z) : result Z :=
  if (orientationNumber <? 0) || (5 <? orientationNumber) then Raise ValueError
  else if 1 <? initialCellIndex then
    if orientationNumber =? 0 then Ok initialCellIndex
    else
      ring ← numRingsToHoldNumCells initialCellIndex;
      let tot_pins := totalPositionsUpToRing ring in
      let newPinLocation := initialCellIndex + (ring - 1) * orientationNumber in
      let newPinLocation :=
        if tot_pins <? newPinLocation then newPinLocation - (ring - 1) * 6
        else newPinLocation in
      Ok newPinLocation
  else if initialCellIndex =? 1 then Ok initialCellIndex
  else Raise ValueError.

(** * Rotation of the data of all cells *)

(** The containers [rotateHexCellData] tells apart: a [list], a
    [numpy.ndarray] (by its first dimension), and anything else. *)
Inductive pydata (A : Type) : Type :=
  | PyList (items : list A)
  | NdArray (items : list A)
  | PyOther.

Arguments PyList {A} items.
Arguments NdArray {A} items.
Arguments PyOther {A}.

Section Rotation.

Context {A : Type}.

(** What the memory returned by [numpy.empty_like] happens to hold at
    each position. *)
Variable uninit : nat -> A.

(** What [iterables.pivot] returns for an offset that is larger than the
    sequence is long; see [pivot]. *)
Variable beyond : list A -> Z -> list A.

(** What numpy makes of the items of a list.  [np.size(data, axis=0)] and
    [np.empty_like(data)] build an array from the list, with one dtype and
    one shape for all of its items; an assignment into the buffer converts
    the assigned items to that dtype, and [tolist] hands them back as
    Python objects.  [cast data] is this conversion of one item, and [None]
    when numpy builds no array from [data] and raises [ValueError] (items
    of different shapes).  It depends on all of [data]: nothing is assumed
    about it. *)
Variable cast : list A -> option (A -> A).

Definition empty_like (data : list A) : list A :=
  uninit <$> seq 0 (length data).

(** A slice bound, as Python clips it to the length of the sequence. *)
Definition slice_bound (len : nat) (i : Z) : nat :=
  Z.to_nat (if i <? 0 then Z.max 0 (i + Z.of_nat len) else Z.min i (Z.of_nat len)).

(** [data[start:stop]] *)
Definition getslice (data : list A) (start stop : Z) : list A :=
  let lo := slice_bound (length data) start in
  let hi := slice_bound (length data) stop in
  take (hi - lo) (drop lo data).

(** [buffer[start:stop] = values] on an array: the shapes must agree,
    except that a single value is broadcast. *)
Definition setslice (buffer : list A) (start stop : Z) (values : list A) : result (list A) :=
  let lo := slice_bound (length buffer) start in
  let hi := slice_bound (length buffer) stop in
  let n := (hi - lo)%nat in
  if bool_decide (length values = n) then
    Ok (take lo buffer ++ values ++ drop (lo + n) buffer)
  else
    match values with
    | [v] => Ok (take lo buffer ++ replicate n v ++ drop (lo + n) buffer)
    | _ => Raise ValueError
    end.

(** Modelled from the spec: [armi.utils.iterables.pivot] is not among the
    sources at hand. The spec calls it a cyclic shift, "reordering a
    fixed-length sequence by rotating its elements circularly by a given
    offset"; with the tests ([pivot(data, -1)] of [[0,10,20,30,40,50]] is
    [[50,0,10,20,30,40]]) the item at [position] becomes the first one, a
    negative [position] counting from the end.  That settles the offsets
    from [-n] to [n] for a sequence of [n] items.  What an offset beyond
    the length gives is settled neither by the spec nor by the tests: it
    is [beyond items position]. *)
Definition pivot (items : list A) (position : Z) : list A :=
  let n := Z.of_nat (length items) in
  if (- n <=? position) && (position <=? n) then
    let k := Z.to_nat (if position <? 0 then position + n else position) in
    drop k items ++ take k items
  else beyond items position.

(** One turn of the loop over the rings: the state is the buffer and
    [ringPosStart].  The items assigned to the buffer are converted to its
    dtype by [conv]. *)
Definition rotateRing (conv : A -> A) (data : list A) (nRotations : Z)
    (state : list A * Z) (ring : Z) : result (list A * Z) :=
  let '(buffer, ringPosStart) := state in
  let pinsPerRing := numPositionsInRing ring in
  let pinsPerEdge := pinsPerRing / 6 in
  let ringPosEnd := ringPosStart + pinsPerRing in
  let ringData := getslice data ringPosStart ringPosEnd in
  let rotatedRingData := pivot ringData (- (nRotations * pinsPerEdge)) in
  buffer ← setslice buffer ringPosStart ringPosEnd (conv <$> rotatedRingData);
  Ok (buffer, ringPosEnd).

Fixpoint rotateRings (conv : A -> A) (data : list A) (nRotations : Z)
    (state : list A * Z) (rings : list Z) : result (list A * Z) :=
  match rings with
  | [] => Ok state
  | ring :: rings =>
      state ← rotateRing conv data nRotations state ring;
      rotateRings conv data nRotations state rings
  end.

(** The body shared by both kinds of container, from the test of the
    size on. *)
Definition rotateCells (conv : A -> A) (data : list A) (cells nRotations : Z) : result (list A) :=
  if negb (Z.of_nat (length data) =? cells) then Raise ValueError
  else
    let buffer := empty_like data in
    match data with
    | [] => Raise IndexError
    | center :: _ =>
        let buffer := <[0%nat := conv center]> buffer in
        nRings ← numRingsToHoldNumCells cells;
        state ← rotateRings conv data nRotations (buffer, 1) (seqZ 2 (nRings + 1 - 2));
        Ok state.1
    end.

(** The array numpy builds from a list: the empty list always gives the
    empty array. *)
Definition asarray (items : list A) : option (A -> A) :=
  match items with
  | [] => Some id
  | _ :: _ => cast items
  end.

(** An array is rotated as it is, its buffer having its dtype; a list
    goes through an array of its items and back. *)
Definition rotateHexCellData (data : pydata A) (cells nRotations : Z) : result (pydata A) :=
  match data with
  | PyOther => Raise TypeError
  | NdArray items => buffer ← rotateCells id items cells nRotations; Ok (NdArray buffer)
  | PyList items =>
      match asarray items with
      | None => Raise ValueError
      | Some conv => buffer ← rotateCells conv items cells nRotations; Ok (PyList buffer)
      end
  end.

End Rotation.

(** * Python objects of the lists used as examples *)

(** An int that fits numpy's default integer type, [int64]. *)
Record int64 : Set := Int64 {
  int64_value : Z;
  int64_fits : Is_true ((- 2 ^ 63 <=? int64_value) && (int64_value <? 2 ^ 63))
}.

(** Such ints, and strs. *)
Inductive pyobj : Set :=
  | PyInt (i : int64)
  | PyStr (s : string).

Abbreviation i64 z := (PyInt (Int64 z I)) (only parsing).

Definition is_int (x : pyobj) : bool :=
  match x with
  | PyInt _ => true
  | PyStr _ => false
  end.

(** A str as an array of strs gives it back: the array pads its items
    with NUL characters and drops every trailing NUL on the way out. *)
Fixpoint rstrip_nul (s : string) : string :=
  match s with
  | EmptyString => EmptyString
  | String c s =>
      match rstrip_nul s with
      | EmptyString => if Ascii.eqb c Ascii.zero then EmptyString else String c EmptyString
      | t => String c t
      end
  end.

(** An item as an array of strs holds it: an int by its decimal digits,
    [str(i)]. *)
Definition np_str (x : pyobj) : pyobj :=
  match x with
  | PyInt i => PyStr (NilZero.string_of_int (Z.to_int (int64_value i)))
  | PyStr s => PyStr (rstrip_nul s)
  end.

(** numpy on a list of such ints and strs: ints alone make an array of
    [int64] and come back as they are; with a str among the items the
    array holds strs.  No such list is refused. *)
Definition np_cast (data : list pyobj) : option (pyobj -> pyobj) :=
  if forallb is_int data then Some id else Some np_str.

(** A [pivot] that leaves the items alone beyond their length, taken for
    the examples. *)
Definition beyond_unchanged {A} (items : list A) (position : Z) : list A := items.

(** * Auxiliary definitions for the proofs *)

Abbreviation prec := Float64.prec (only parsing).
Abbreviation emax := Float64.emax (only parsing).

(** The conversion of an integer, before the overflow test. *)
Definition float_of_Z (k : Z) : spec_float := binary_normalize prec emax k 0 false.

(** A normal double: a 53-bit mantissa. *)
Definition normal (m : positive) : Prop := 2 ^ 52 <= Zpos m < 2 ^ 53.

(** The second half of [binary_round_aux]: renormalisation after the
    rounding of the mantissa. *)
Definition finish (x e : Z) : spec_float :=
  let '(mrs, e') := shr_fexp prec emax x e loc_Exact in
  match shr_m mrs with
  | Z0 => S754_zero false
  | Zpos m => if e' <=? emax - prec then S754_finite false m e' else S754_infinity false
  | Zneg _ => S754_nan
  end.

(** The cyclic shift by an offset counted modulo the length: what
    [pivot] is for the offsets within the length. *)
Definition cyclic {A} (items : list A) (position : Z) : list A :=
  rotate (Z.to_nat (position `mod` Z.of_nat (length items))) items.

(** The data of ring [ring] in a sequence that holds this ring in full. *)
Definition ringData {A} (data : list A) (ring : Z) : list A :=
  take (Z.to_nat (6 * (ring - 1)))
    (drop (Z.to_nat (totalPositionsUpToRing (ring - 1))) data).

(** The cyclically shifted data of [count] successive rings, from ring
    [ring] on. *)
Fixpoint rotatedRings {A} (data : list A) (nRotations ring : Z) (count : nat) : list A :=
  match count with
  | O => []
  | S count =>
      cyclic (ringData data ring) (- (nRotations * (ring - 1)))
      ++ rotatedRings data nRotations (ring + 1) count
  end.

(** A double that is neither negative nor a NaN. *)
Definition nonneg_float (x : spec_float) : Prop :=
  match x with
  | S754_zero s | S754_infinity s | S754_finite s _ _ => s = false
  | S754_nan => False
  end.

(** The largest cell count for which the closed form of
    [numRingsToHoldNumCells] is exact: a full hexagon of [2^25] rings. *)
Definition maxExactCells : Z := 3377699619864577.
Definition maxExactRings : Z := 33554432.

(** The largest number of rings for which the closed form is exact at the
    size of the full hexagon: [2^52]. *)
Definition maxFullRings : Z := 4503599627370496.

(** * Facts on binary64 arithmetic *)

Ltac dlia := Z.to_euclidean_division_equations; lia.

Lemma result_bind_Ok {A B} (a : A) (f : A -> result B) : (Ok a ≫= f) = f a.
Proof. reflexivity. Qed.

Lemma digits2_pos_size p : digits2_pos p = Pos.size p.
Proof. induction p; simpl; congruence. Qed.

Lemma digits2_pos_bounds p :
  2 ^ (Zpos (digits2_pos p) - 1) <= Zpos p < 2 ^ Zpos (digits2_pos p).
Proof.
  induction p as [p IH|p IH|]; simpl digits2_pos.
  - rewrite Pos2Z.inj_succ.
    replace (Z.succ (Zpos (digits2_pos p)) - 1) with (Z.succ (Zpos (digits2_pos p) - 1)) by lia.
    rewrite !Z.pow_succ_r by lia. lia.
  - rewrite Pos2Z.inj_succ.
    replace (Z.succ (Zpos (digits2_pos p)) - 1) with (Z.succ (Zpos (digits2_pos p) - 1)) by lia.
    rewrite !Z.pow_succ_r by lia. lia.
  - simpl. lia.
Qed.

Lemma pow2_lt_inv a b : 0 <= b -> 2 ^ a < 2 ^ b -> a < b.
Proof.
  intros Hb H. destruct (Z_lt_le_dec a b) as [|Hle]; [done|].
  apply (Z.pow_le_mono_r 2) in Hle; lia.
Qed.

Lemma digits2_pos_unique p d :
  2 ^ (d - 1) <= Zpos p < 2 ^ d -> Zpos (digits2_pos p) = d.
Proof.
  intros [Hlo Hhi]. pose proof (digits2_pos_bounds p) as [Hlo' Hhi'].
  assert (0 < d).
  { destruct (Z_lt_le_dec 0 d); [done|].
    assert (2 ^ d <= 2 ^ 0) by (destruct (Z.eq_dec d 0) as [->|]; [lia|rewrite Z.pow_neg_r; simpl; lia]).
    simpl in *. lia. }
  assert (d - 1 < Zpos (digits2_pos p)) by (apply pow2_lt_inv; lia).
  assert (Zpos (digits2_pos p) - 1 < d) by (apply pow2_lt_inv; lia).
  lia.
Qed.

Lemma Zdigits2_unique m d :
  2 ^ (d - 1) <= m < 2 ^ d -> 0 < m -> Zdigits2 m = d.
Proof.
  intros H Hm. destruct m as [|p|p]; try lia. simpl. by apply digits2_pos_unique.
Qed.

Lemma pos_iter_xO m d : Zpos (Pos.iter xO m d) = Zpos m * 2 ^ Zpos d.
Proof.
  change (Pos.iter xO m d) with (shift_pos d m).
  rewrite shift_pos_correct, Zpower_pos_nat, Zpower_nat_Z, positive_nat_Z. lia.
Qed.

(** ** Right shifts *)

Lemma iter_pos_nat {A} (f : A -> A) p x :
  SpecFloat.iter_pos f p x = Nat.iter (Pos.to_nat p) f x.
Proof.
  revert x. induction p as [p IH|p IH|]; intros x; simpl SpecFloat.iter_pos.
  - rewrite !IH, Pos2Nat.inj_xI, <-Nat.iter_add, Nat.iter_succ_r.
    f_equal. lia.
  - rewrite !IH, Pos2Nat.inj_xO, <-Nat.iter_add. f_equal. lia.
  - reflexivity.
Qed.

Lemma shr_1_m mrs : 0 <= shr_m mrs -> shr_m (shr_1 mrs) = shr_m mrs / 2.
Proof.
  destruct mrs as [m r s]; simpl. intros Hm.
  destruct m as [|[p|p|]|p]; simpl shr_m; try lia; try reflexivity.
  - apply Z.div_unique with 1; lia.
  - apply Z.div_unique with 0; lia.
Qed.

Lemma shr_iter_m n mrs :
  0 <= shr_m mrs -> shr_m (Nat.iter n shr_1 mrs) = shr_m mrs / 2 ^ Z.of_nat n.
Proof.
  intros Hm. induction n as [|n IH].
  - simpl. by rewrite Z.div_1_r.
  - rewrite Nat2Z.inj_succ, Z.pow_succ_r by lia. simpl Nat.iter.
    rewrite shr_1_m, IH.
    + rewrite Z.div_div by lia. f_equal. lia.
    + rewrite IH. apply Z.div_pos; lia.
Qed.

Lemma shr_iter_exact n m :
  0 <= m -> m mod 2 ^ Z.of_nat n = 0 ->
  Nat.iter n shr_1 (Build_shr_record m false false)
  = Build_shr_record (m / 2 ^ Z.of_nat n) false false.
Proof.
  intros Hm. induction n as [|n IH]; intros Hdiv.
  - simpl. by rewrite Z.div_1_r.
  - rewrite Nat2Z.inj_succ, Z.pow_succ_r in * by lia. simpl Nat.iter.
    assert (H2n : 0 < 2 ^ Z.of_nat n) by lia.
    set (P := 2 ^ Z.of_nat n) in *.
    apply Z.mod_divide in Hdiv; [|lia]. destruct Hdiv as [c Hc].
    assert (0 <= c) by nia.
    assert (Hq1 : m / P = 2 * c) by (symmetry; apply Z.div_unique with 0; lia).
    assert (Hq2 : m / (2 * P) = c) by (symmetry; apply Z.div_unique with 0; lia).
    rewrite IH.
    + rewrite Hq1, Hq2. destruct c as [|p|p]; simpl; try lia; reflexivity.
    + apply Z.mod_divide; [lia|]. exists (c * 2). lia.
Qed.

(** ** Rounding to 53 bits *)

Lemma binary_round_aux_finish mx ex lx :
  binary_round_aux prec emax false mx ex lx =
  let '(mrs, e') := shr_fexp prec emax mx ex lx in
  finish (round_nearest_even (shr_m mrs) (loc_of_shr_record mrs)) e'.
Proof. reflexivity. Qed.

Lemma shr_fexp_digits m e l sh :
  Zdigits2 m = 53 + sh -> -1074 <= e + sh ->
  shr_fexp prec emax m e l = shr (shr_record_of_loc m l) e sh.
Proof.
  intros Hd He. unfold shr_fexp, fexp, SpecFloat.emin, prec, emax.
  rewrite Hd. f_equal. lia.
Qed.

Lemma finish_spec x e :
  2 ^ 52 <= x <= 2 ^ 53 -> -1074 <= e <= 970 ->
  exists mg eg, finish x e = S754_finite false mg eg /\ normal mg /\
    e <= eg <= e + 1 /\ Zpos mg * 2 ^ (eg - e) = x.
Proof.
  intros Hx He. unfold finish.
  destruct (Z.eq_dec x (2 ^ 53)) as [->|Hne].
  - rewrite (shr_fexp_digits _ _ _ 1) by (reflexivity || lia).
    simpl. replace (e + 1 <=? emax - prec) with true
      by (symmetry; apply Z.leb_le; unfold emax, prec; lia).
    eexists _, _. split; [reflexivity|]. unfold normal.
    replace (e + 1 - e) with 1 by lia. repeat split; lia.
  - rewrite (shr_fexp_digits _ _ _ 0) by (try apply Zdigits2_unique; lia).
    simpl shr. destruct x as [|p|p]; try lia. simpl shr_m.
    replace (e <=? emax - prec) with true
      by (symmetry; apply Z.leb_le; unfold emax, prec; lia).
    eexists _, _. split; [reflexivity|]. unfold normal.
    rewrite Z.sub_diag. repeat split; lia.
Qed.

Lemma round_nearest_even_bounds m l :
  m <= round_nearest_even m l <= m + 1.
Proof. destruct l as [|[]]; simpl; try destruct (Z.even m); lia. Qed.

(** Rounding a mantissa that already has 53 bits: only the location
    decides. *)
Lemma binary_round_aux_53 m e l :
  2 ^ 52 <= m < 2 ^ 53 -> -1074 <= e <= 970 ->
  exists mg eg, binary_round_aux prec emax false m e l = S754_finite false mg eg /\
    normal mg /\ e <= eg <= e + 1 /\
    m <= Zpos mg * 2 ^ (eg - e) <= m + 1 /\
    (l = loc_Exact -> Zpos mg * 2 ^ (eg - e) = m).
Proof.
  intros Hm He. rewrite binary_round_aux_finish.
  rewrite (shr_fexp_digits _ _ _ 0) by (try apply Zdigits2_unique; lia).
  simpl shr. cbv beta iota zeta.
  assert (Hl : loc_of_shr_record (shr_record_of_loc m l) = l) by (by destruct l as [|[]]).
  assert (Hs : shr_m (shr_record_of_loc m l) = m) by (by destruct l as [|[]]).
  rewrite Hl, Hs.
  pose proof (round_nearest_even_bounds m l) as Hr.
  destruct (finish_spec (round_nearest_even m l) e) as (mg & eg & -> & Hn & Heg & Hv); [lia..|].
  exists mg, eg. rewrite Hv. split; [done|]. split; [done|]. split; [done|].
  split; [done|]. by intros ->.
Qed.

(** Rounding an exact mantissa of [53 + sh] bits: [sh] low bits are
    dropped. *)
Lemma binary_round_aux_shift m e sh :
  0 <= sh -> 2 ^ (52 + sh) <= m < 2 ^ (53 + sh) -> -1074 <= e + sh <= 970 ->
  exists mg eg, binary_round_aux prec emax false m e loc_Exact = S754_finite false mg eg /\
    normal mg /\ e + sh <= eg <= e + sh + 1 /\
    m / 2 ^ sh * 2 ^ sh <= Zpos mg * 2 ^ (eg - e) <= (m / 2 ^ sh + 1) * 2 ^ sh /\
    (m mod 2 ^ sh = 0 -> Zpos mg * 2 ^ (eg - e) = m).
Proof.
  intros Hsh Hm He.
  assert (H52 : 0 < 2 ^ 52) by lia.
  assert (Hpos : 0 < m).
  { assert (2 ^ 52 <= 2 ^ (52 + sh)) by (apply Z.pow_le_mono_r; lia). lia. }
  destruct (Z.eq_dec sh 0) as [->|Hne].
  { destruct (binary_round_aux_53 m e loc_Exact) as (mg & eg & Hr & Hn & Heg & Hv & Hex);
      [simpl in *; lia..|].
    exists mg, eg. simpl (2 ^ 0). rewrite Z.div_1_r, !Z.mul_1_r, !Z.add_0_r.
    split; [done|]. split; [done|]. split; [done|]. split; [lia|]. intros _. by apply Hex. }
  rewrite binary_round_aux_finish.
  rewrite (shr_fexp_digits _ _ _ sh) by (try apply Zdigits2_unique; try lia;
    replace (53 + sh - 1) with (52 + sh) by lia; done).
  destruct sh as [|p|p]; try lia. unfold shr. simpl shr_record_of_loc.
  cbv beta iota zeta.
  rewrite iter_pos_nat.
  set (mrs := Nat.iter _ _ _).
  assert (Hq : shr_m mrs = m / 2 ^ Zpos p).
  { unfold mrs. rewrite shr_iter_m by (simpl; lia). by rewrite positive_nat_Z. }
  set (P := 2 ^ Zpos p) in *.
  assert (HP : 0 < P) by (unfold P; lia).
  assert (Hqb : 2 ^ 52 <= m / P < 2 ^ 53).
  { rewrite !(Z.pow_add_r 2 _ (Z.pos p)) in Hm by lia. fold P in Hm. split.
    - apply Z.div_le_lower_bound; lia.
    - apply Z.div_lt_upper_bound; lia. }
  pose proof (round_nearest_even_bounds (shr_m mrs) (loc_of_shr_record mrs)) as Hr.
  rewrite Hq in Hr.
  destruct (finish_spec (round_nearest_even (shr_m mrs) (loc_of_shr_record mrs)) (e + Zpos p))
    as (mg & eg & -> & Hn & Heg & Hv); [rewrite Hq; lia|lia|].
  exists mg, eg. split; [done|]. split; [done|]. split; [lia|].
  assert (Hpow : 2 ^ (eg - e) = 2 ^ (eg - (e + Z.pos p)) * P).
  { unfold P. rewrite <-Z.pow_add_r by lia. f_equal. lia. }
  rewrite Hpow, Z.mul_assoc, Hv, Hq. split; [nia|].
  intros Hdiv. unfold mrs.
  rewrite shr_iter_exact by (rewrite ?positive_nat_Z; fold P; lia).
  simpl. pose proof (Z.div_mod m P ltac:(lia)). lia.
Qed.

Lemma binary_round_aux_normal m e :
  normal m -> -1074 <= e <= 970 ->
  binary_round_aux prec emax false (Zpos m) e loc_Exact = S754_finite false m e.
Proof.
  intros Hm He. rewrite binary_round_aux_finish.
  rewrite (shr_fexp_digits _ _ _ 0) by (try apply Zdigits2_unique; unfold normal in Hm; lia).
  simpl. unfold finish.
  rewrite (shr_fexp_digits _ _ _ 0) by (try apply Zdigits2_unique; unfold normal in Hm; lia).
  simpl. replace (e <=? emax - prec) with true
    by (symmetry; apply Z.leb_le; unfold emax, prec; lia).
  reflexivity.
Qed.

(** ** Conversion of an integer below [2^53] *)

Lemma float_of_Z_exact k d :
  1 <= d <= 53 -> 2 ^ (d - 1) <= k < 2 ^ d ->
  exists mk, float_of_Z k = S754_finite false mk (d - 53) /\ normal mk /\
    Zpos mk = k * 2 ^ (53 - d).
Proof.
  intros Hd Hk.
  assert (0 < 2 ^ (d - 1)) by (apply Z.pow_pos_nonneg; lia).
  destruct k as [|p|p]; try lia.
  unfold float_of_Z, binary_normalize, binary_round.
  rewrite (digits2_pos_unique p d) by done.
  replace (fexp prec emax (d + 0)) with (d - 53)
    by (unfold fexp, SpecFloat.emin, prec, emax; lia).
  unfold shl_align. rewrite Z.sub_0_r.
  destruct (Z.eq_dec d 53) as [->|Hne].
  - change (53 - 53) with 0. cbv beta iota zeta.
    assert (normal p) by (unfold normal; simpl in *; lia).
    rewrite binary_round_aux_normal by (done || lia).
    exists p. simpl. split; [done|]. split; [done|]. lia.
  - destruct (d - 53) as [|q|q] eqn:Hq; try lia. cbv beta iota zeta.
    assert (Hv : Zpos (Pos.iter xO p q) = Zpos p * 2 ^ (53 - d)).
    { rewrite pos_iter_xO. do 2 f_equal. lia. }
    assert (normal (Pos.iter xO p q)).
    { unfold normal. rewrite Hv.
      replace (2 ^ 52) with (2 ^ (d - 1) * 2 ^ (53 - d))
        by (rewrite <-Z.pow_add_r by lia; f_equal; lia).
      replace (2 ^ 53) with (2 ^ d * 2 ^ (53 - d))
        by (rewrite <-Z.pow_add_r by lia; f_equal; lia).
      assert (0 < 2 ^ (53 - d)) by (apply Z.pow_pos_nonneg; lia). nia. }
    rewrite binary_round_aux_normal by (done || lia).
    eexists. split; [reflexivity|]. done.
Qed.

(** ** Square root of a normal double *)

Lemma SFsqrt_spec mx ex a :
  normal mx -> 1 <= a <= 26 -> 2 * a - 54 <= ex <= 2 * a - 53 ->
  let j := 53 - a in
  let M := Zpos mx * 2 ^ (ex + 2 * j) in
  exists mf ef, SFsqrt prec emax (S754_finite false mx ex) = S754_finite false mf ef /\
    normal mf /\ - j <= ef <= - j + 1 /\
    Z.sqrt M <= Zpos mf * 2 ^ (ef + j) <= Z.sqrt M + 1 /\
    (Z.sqrt M * Z.sqrt M = M -> Zpos mf * 2 ^ (ef + j) = Z.sqrt M).
Proof.
  intros Hn Ha Hex j M. unfold SFsqrt, SFsqrt_core_binary.
  rewrite (Zdigits2_unique (Zpos mx) 53) by (unfold normal in Hn; lia).
  assert (He' : Z.min (fexp prec emax (Z.div2 (53 + ex + 1))) (Z.div2 ex) = - j).
  { unfold fexp, SpecFloat.emin, prec, emax. rewrite !Z.div2_div. subst j. dlia. }
  rewrite He'.
  assert (Hs : ex - 2 * - j = ex + 2 * j) by lia. rewrite Hs.
  assert (Hsh : 52 <= ex + 2 * j <= 53) by (subst j; lia).
  destruct (ex + 2 * j) as [|sp|sp] eqn:Hsp; try lia.
  rewrite Z.shiftl_mul_pow2 by lia. fold M.
  assert (HM : 2 ^ 104 <= M < 2 ^ 106).
  { unfold M, normal in *.
    assert (2 ^ Z.pos sp = 2 ^ 52 \/ 2 ^ Z.pos sp = 2 ^ 53) as [-> | ->]
      by (assert (Z.pos sp = 52 \/ Z.pos sp = 53) as [-> | ->] by lia; auto).
    all: lia. }
  pose proof (Z.sqrtrem_spec M ltac:(lia)) as Hspec.
  pose proof (Z.sqrtrem_sqrt M) as Hfst.
  destruct (Z.sqrtrem M) as [q r]. simpl in Hfst. subst q.
  destruct Hspec as [HMq Hr].
  set (q := Z.sqrt M) in *.
  assert (Hq : 2 ^ 52 <= q < 2 ^ 53).
  { split.
    - apply Z.sqrt_le_square; lia.
    - apply Z.sqrt_lt_square; lia. }
  set (l := if r =? 0 then loc_Exact else loc_Inexact (if r <=? q then Lt else Gt)).
  destruct (binary_round_aux_53 q (- j) l) as (mf & ef & -> & Hnf & Hef & Hv & Hexact);
    [done|subst j; lia|].
  exists mf, ef. split; [done|]. split; [done|]. split; [done|].
  replace (ef + j) with (ef - - j) by lia. split; [done|].
  intros Hsq. apply Hexact. unfold l.
  replace (r =? 0) with true by (symmetry; apply Z.eqb_eq; lia). done.
Qed.

(** ** Adding 1.0 and halving *)

Lemma SFadd_one_spec mf ef sh :
  normal mf -> -52 <= ef <= 0 ->
  let M := 2 ^ 52 + Zpos mf * 2 ^ (ef + 52) in
  0 <= sh <= 900 -> 2 ^ (52 + sh) <= M < 2 ^ (53 + sh) ->
  exists mg eg,
    SFadd prec emax Float64.one (S754_finite false mf ef) = S754_finite false mg eg /\
    normal mg /\ sh - 52 <= eg <= sh - 51 /\
    M / 2 ^ sh * 2 ^ sh <= Zpos mg * 2 ^ (eg + 52) <= (M / 2 ^ sh + 1) * 2 ^ sh /\
    (M mod 2 ^ sh = 0 -> Zpos mg * 2 ^ (eg + 52) = M).
Proof.
  intros Hn Hef M Hsh HM. unfold SFadd, Float64.one.
  replace (Z.min (-52) ef) with (-52) by lia.
  assert (Hal : Zpos (fst (shl_align mf ef (-52))) = Zpos mf * 2 ^ (ef + 52)).
  { unfold shl_align. destruct (-52 - ef) as [|q|q] eqn:Hq; try lia; simpl fst.
    - replace (ef + 52) with 0 by lia. lia.
    - rewrite pos_iter_xO. do 2 f_equal. lia. }
  change (fst (shl_align 4503599627370496 (-52) (-52))) with 4503599627370496%positive.
  unfold cond_Zopp.
  set (c := fst (shl_align mf ef (-52))) in *.
  change (Zpos 4503599627370496 + Zpos c) with (Zpos (4503599627370496 + c)).
  assert (Hc : Zpos (4503599627370496 + c) = M) by (unfold M; rewrite <-Hal; lia).
  unfold binary_normalize, binary_round.
  rewrite (digits2_pos_unique _ (53 + sh))
    by (rewrite Hc; replace (53 + sh - 1) with (52 + sh) by lia; done).
  replace (fexp prec emax (53 + sh + -52)) with (sh - 52)
    by (unfold fexp, SpecFloat.emin, prec, emax; lia).
  unfold shl_align. destruct (sh - 52 - -52) as [|q|q] eqn:Hq; try lia;
    cbv beta iota zeta; rewrite Hc.
  all: destruct (binary_round_aux_shift M (-52) sh) as (mg & eg & -> & Hng & Heg & Hv & Hex);
    [lia|done|lia|].
  all: exists mg, eg; replace (eg + 52) with (eg - -52) by lia.
  all: split; [done|]; split; [done|]; split; [lia|]; split; done.
Qed.

Lemma SFmul_half_spec mg eg :
  normal mg -> -1000 <= eg <= 900 ->
  SFmul prec emax Float64.half (S754_finite false mg eg) = S754_finite false mg (eg - 1).
Proof.
  intros Hn He. unfold SFmul, Float64.half. simpl xorb. unfold normal in Hn.
  destruct (binary_round_aux_shift (Zpos (4503599627370496 * mg)) (-53 + eg) 52)
    as (mh & eh & -> & Hnh & Heh & _ & Hex); [lia| |lia|].
  { rewrite Pos2Z.inj_mul. change (Zpos 4503599627370496) with (2 ^ 52).
    change (2 ^ (52 + 52)) with (2 ^ 52 * 2 ^ 52).
    change (2 ^ (53 + 52)) with (2 ^ 52 * 2 ^ 53). nia. }
  assert (Hv : Zpos mh * 2 ^ (eh - (-53 + eg)) = Zpos (4503599627370496 * mg)).
  { apply Hex. rewrite Pos2Z.inj_mul. change (Zpos 4503599627370496) with (2 ^ 52).
    apply Z.mod_divide; [lia|]. exists (Zpos mg). lia. }
  rewrite Pos2Z.inj_mul in Hv. unfold normal in Hnh.
  assert (eh = eg - 1 \/ eh = eg) as [-> | ->] by lia.
  - replace (eg - 1 - (-53 + eg)) with 52 in Hv by lia.
    assert (Zpos mh = Zpos mg) by lia. by simplify_eq.
  - replace (eg - (-53 + eg)) with 53 in Hv by lia.
    change (Zpos 4503599627370496) with (2 ^ 52) in Hv.
    change (2 ^ 53) with (2 * 2 ^ 52) in Hv. lia.
Qed.

(** ** Integer facts behind the rounding analysis *)

Lemma sqrt_scaled_lower s k J c :
  0 <= s -> s * s < k -> 1 <= c -> c * c <= J -> 2 * c * s + 1 <= J ->
  s * J + c <= Z.sqrt (k * (J * J)).
Proof.
  intros Hs Hk Hc HcJ HJ. apply Z.sqrt_le_square; [nia|nia|].
  assert (s * s + 1 <= k) by lia.
  assert ((s * s + 1) * (J * J) <= k * (J * J)) by nia.
  assert (2 * c * s * J + c * c <= J * J) by nia.
  nia.
Qed.

Lemma sqrt_scaled_upper s k J :
  0 <= s -> k < (s + 1) * (s + 1) -> 0 <= k -> 2 * (s + 1) <= J ->
  Z.sqrt (k * (J * J)) + 2 <= (s + 1) * J.
Proof.
  intros Hs Hk Hk0 HJ.
  assert (Z.sqrt (k * (J * J)) < (s + 1) * J - 1); [|lia].
  apply Z.sqrt_lt_square; [nia|nia|].
  assert (k + 1 <= (s + 1) * (s + 1)) by lia.
  assert ((k + 1) * (J * J) <= (s + 1) * (s + 1) * (J * J)) by nia.
  assert (2 * (s + 1) * J <= J * J) by nia.
  nia.
Qed.

Lemma sqrt_scaled_exact s J : 0 <= s -> 0 <= J -> Z.sqrt (s * s * (J * J)) = s * J.
Proof.
  intros. replace (s * s * (J * J)) with ((s * J) * (s * J)) by ring.
  apply Z.sqrt_square. nia.
Qed.

Lemma pow2_split a b : 0 <= a -> 0 <= b -> 2 ^ (a + b) = 2 ^ a * 2 ^ b.
Proof. intros. by rewrite Z.pow_add_r. Qed.

(** The sum [2^52 + Vf * H] (the scaled [1 + sqrt k]) clears the next
    representable value above [s + 1] whenever [k] is not a square. *)
Lemma sum_lower s J H T Vf Q c :
  0 < H -> s * J + c <= Q -> Q <= Vf -> T <= c * H ->
  (s + 1) * (H * J) + T <= H * J + Vf * H.
Proof.
  intros HH HQ HV HT.
  assert ((s * J + c) * H <= Vf * H) by (apply Z.mul_le_mono_nonneg_r; lia).
  lia.
Qed.

Lemma sum_upper s J H Vf :
  0 < H -> Vf + 1 <= (s + 1) * J -> H * J + Vf * H + H <= (s + 2) * (H * J).
Proof.
  intros HH HV.
  assert ((Vf + 1) * H <= (s + 1) * J * H) by (apply Z.mul_le_mono_nonneg_r; lia).
  lia.
Qed.

Lemma ceil_div_bounds m D : 0 < D -> D * (- (- m / D) - 1) < m <= D * - (- m / D).
Proof.
  intros HD. pose proof (Z.div_mod (- m) D ltac:(lia)).
  pose proof (Z.mod_pos_bound (- m) D HD).
  set (q := - m / D) in *. set (r := - m mod D) in *. clearbody q r. lia.
Qed.

Lemma ring_of_square s r P :
  0 < P -> 1 <= s ->
  2 * P * (r - 1) < (s + 1) * P <= 2 * P * r ->
  1 <= r /\ s * s <= (2 * r - 1) * (2 * r - 1) /\
  (2 <= r -> (2 * r - 3) * (2 * r - 3) < s * s).
Proof.
  intros HP Hs [H1 H2].
  assert (2 * (r - 1) < s + 1) by (apply (Z.mul_lt_mono_pos_r P); lia).
  assert (s + 1 <= 2 * r) by (apply (Z.mul_le_mono_pos_r _ _ P); lia).
  split; [lia|]. split.
  - apply Z.square_le_mono_nonneg; lia.
  - intros. apply Z.square_lt_mono_nonneg; lia.
Qed.

Lemma ring_of_nonsquare s k r P Vg :
  0 < P -> 1 <= s -> s * s < k < (s + 1) * (s + 1) ->
  (s + 1) * P < Vg <= (s + 2) * P ->
  2 * P * (r - 1) < Vg <= 2 * P * r ->
  1 <= r /\ k <= (2 * r - 1) * (2 * r - 1) /\
  (2 <= r -> (2 * r - 3) * (2 * r - 3) < k).
Proof.
  intros HP Hs Hk [H1 H2] [H3 H4].
  assert (s + 1 < 2 * r) by (apply (Z.mul_lt_mono_pos_r P); lia).
  assert (2 * (r - 1) < s + 2) by (apply (Z.mul_lt_mono_pos_r P); lia).
  split; [lia|]. split.
  - assert ((s + 1) * (s + 1) <= (2 * r - 1) * (2 * r - 1))
      by (apply Z.square_le_mono_nonneg; lia). lia.
  - intros. assert ((2 * r - 3) * (2 * r - 3) <= s * s)
      by (apply Z.square_le_mono_nonneg; lia). lia.
Qed.

Lemma bits_of_square_range H s k :
  0 < H -> H <= s < 2 * H -> s * s <= k < (s + 1) * (s + 1) ->
  H * H <= k < 4 * (H * H).
Proof.
  intros HH Hs Hk.
  assert (H * H <= s * s) by (apply Z.square_le_mono_nonneg; lia).
  assert ((s + 1) * (s + 1) <= (2 * H) * (2 * H)) by (apply Z.square_le_mono_nonneg; lia).
  lia.
Qed.

Lemma closed_form_spec k :
  1 <= k <= 4503599493152769 ->
  exists r,
    (x ← Float64.of_int k; root ← Float64.sqrt x;
     Float64.ceil (Float64.mul Float64.half (Float64.add Float64.one root))) = Ok r /\
    1 <= r /\
    k <= (2 * r - 1) * (2 * r - 1) /\ (2 <= r -> (2 * r - 3) * (2 * r - 3) < k).
Proof.
  intros Hk. set (s := Z.sqrt k).
  assert (Hs : s * s <= k < (s + 1) * (s + 1)).
  { pose proof (Z.sqrt_spec k ltac:(lia)) as H. unfold Z.succ in H. exact H. }
  assert (Hs1 : 1 <= s <= 2 ^ 26 - 1).
  { split.
    - apply Z.sqrt_le_square; lia.
    - apply Z.lt_succ_r, Z.sqrt_lt_square; simpl; lia. }
  set (a := Z.log2 s + 1).
  assert (Ha0 : 0 <= Z.log2 s) by apply Z.log2_nonneg.
  pose proof (Z.log2_spec s ltac:(lia)) as Hlog.
  replace (Z.succ (Z.log2 s)) with a in Hlog by (unfold a; lia).
  replace (Z.log2 s) with (a - 1) in * by (unfold a; lia).
  assert (Ha : 1 <= a <= 26).
  { split; [lia|]. assert (a - 1 < 26); [|lia]. apply pow2_lt_inv; lia. }
  clearbody a s.
  set (H := 2 ^ (a - 1)) in *.
  assert (HH : 0 < H) by (apply Z.pow_pos_nonneg; lia).
  assert (HA : 2 ^ a = 2 * H).
  { replace a with (1 + (a - 1)) at 1 by lia. rewrite pow2_split by lia. done. }
  rewrite HA in Hlog.
  set (j := 53 - a).
  set (J := 2 ^ j).
  assert (HJ : 0 < J) by (apply Z.pow_pos_nonneg; lia).
  assert (HHJ : H * J = 2 ^ 52).
  { unfold H, J. rewrite <-pow2_split by lia. f_equal. lia. }
  assert (HJH : 4 * H <= J).
  { unfold H, J. change 4 with (2 ^ 2). rewrite <-pow2_split by lia.
    apply Z.pow_le_mono_r; lia. }
  pose proof (bits_of_square_range H s k HH Hlog Hs) as Hkr.
  (* number of bits of k *)
  set (d := if k <? 2 * (H * H) then 2 * a - 1 else 2 * a).
  assert (Hd : 2 ^ (d - 1) <= k < 2 ^ d /\ 2 * a - 1 <= d <= 2 * a).
  { assert (E1 : 2 ^ (2 * a - 1 - 1) = H * H).
    { unfold H. rewrite <-pow2_split by lia. f_equal. lia. }
    assert (E2 : 2 ^ (2 * a - 1) = 2 * (H * H)).
    { replace (2 * a - 1) with (1 + ((a - 1) + (a - 1))) by lia.
      rewrite !pow2_split by lia. done. }
    assert (E3 : 2 ^ (2 * a) = 4 * (H * H)).
    { replace (2 * a) with (2 + ((a - 1) + (a - 1))) by lia.
      rewrite !pow2_split by lia. done. }
    unfold d. destruct (Z.ltb_spec k (2 * (H * H))).
    - rewrite E1, E2. lia.
    - rewrite E2, E3. lia. }
  clearbody d. destruct Hd as [Hkd Hd].
  (* conversion *)
  destruct (float_of_Z_exact k d) as (mk & Hconv & Hnk & Hmk); [lia|done|].
  (* square root *)
  destruct (SFsqrt_spec mk (d - 53) a) as (mf & ef & Hsqrt & Hnf & Hef & Hvf & Hexf);
    [done|lia|lia|].
  fold j in Hef, Hvf, Hexf.
  assert (HM : Zpos mk * 2 ^ (d - 53 + 2 * j) = k * (J * J)).
  { rewrite Hmk, <-Z.mul_assoc. f_equal. rewrite <-pow2_split by lia.
    unfold J. rewrite <-pow2_split by lia. f_equal. lia. }
  rewrite HM in Hvf, Hexf.
  set (Vf := Zpos mf * 2 ^ (ef + j)) in *.
  set (Q := Z.sqrt (k * (J * J))) in *.
  (* the sum *)
  set (sh := Z.log2 (s + 1)).
  pose proof (Z.log2_spec (s + 1) ltac:(lia)) as Hsh.
  pose proof (Z.log2_nonneg (s + 1)) as Hsh0.
  fold sh in Hsh, Hsh0. unfold Z.succ in Hsh.
  assert (Hsha : sh <= a).
  { assert (sh < a + 1); [|lia]. apply pow2_lt_inv; [lia|].
    rewrite (pow2_split a 1), HA by lia. simpl (2 ^ 1). lia. }
  clearbody sh.
  set (T := 2 ^ sh) in *.
  assert (HT : 0 < T) by (apply Z.pow_pos_nonneg; lia).
  rewrite (pow2_split sh 1) in Hsh by lia. fold T in Hsh. simpl (2 ^ 1) in Hsh.
  set (U := 2 ^ (52 - sh)).
  assert (HU : 0 < U) by (apply Z.pow_pos_nonneg; lia).
  assert (HTU : T * U = 2 ^ 52).
  { unfold T, U. rewrite <-pow2_split by lia. f_equal. lia. }
  assert (Hmadd : 2 ^ 52 + Zpos mf * 2 ^ (ef + 52) = H * J + Vf * H).
  { rewrite HHJ. f_equal. unfold Vf, H. rewrite <-Z.mul_assoc, <-pow2_split by lia.
    do 2 f_equal. lia. }
  set (Madd := H * J + Vf * H) in *.
  assert (HVf : (k = s * s /\ Madd = (s + 1) * (H * J)) \/
                (s * s < k /\ (s + 1) * (H * J) + T <= Madd
                 /\ Madd + H <= (s + 2) * (H * J))).
  { destruct (Z.eq_dec k (s * s)) as [Hsq|Hnsq].
    - left. split; [done|]. subst k.
      unfold Q in Hexf. rewrite sqrt_scaled_exact in Hexf by lia.
      unfold Madd. rewrite Hexf by ring. ring.
    - right. split; [lia|].
      assert (HQu : Q + 2 <= (s + 1) * J) by (apply sqrt_scaled_upper; lia).
      split; [|apply sum_upper; lia].
      destruct (Z.eq_dec (s + 1) (2 * H)) as [Hfull|Hnfull].
      + (* s + 1 is a power of two *)
        assert (T = 2 * H).
        { assert (sh = a); [|unfold T; subst sh; done].
          assert (a - 1 < sh); [|lia]. apply pow2_lt_inv; [lia|]. fold H T. lia. }
        assert (a <= 25).
        { destruct (Z.eq_dec a 26) as [->|]; [|lia].
          change H with (2 ^ 25) in *.
          assert (s = 2 ^ 26 - 1) by (simpl in *; lia). subst s. simpl in *. lia. }
        assert (8 * H <= J).
        { unfold H, J. change 8 with (2 ^ 3). rewrite <-pow2_split by lia.
          apply Z.pow_le_mono_r; lia. }
        assert (s * J + 2 <= Q) by (apply sqrt_scaled_lower; lia).
        apply (sum_lower s J H T Vf Q 2); lia.
      + assert (T <= H).
        { assert (sh < a).
          { apply pow2_lt_inv; [lia|]. fold T. rewrite HA. lia. }
          unfold T, H. apply Z.pow_le_mono_r; lia. }
        assert (s * J + 1 <= Q) by (apply sqrt_scaled_lower; lia).
        apply (sum_lower s J H T Vf Q 1); lia. }
  assert (HMrange : 2 ^ (52 + sh) <= Madd < 2 ^ (53 + sh)).
  { rewrite (pow2_split 52 sh), (pow2_split 53 sh) by lia. fold T.
    change (2 ^ 53) with (2 * 2 ^ 52). rewrite <-HHJ.
    assert (T * (H * J) <= (s + 1) * (H * J)) by (apply Z.mul_le_mono_nonneg_r; lia).
    assert ((s + 2) * (H * J) <= 2 * T * (H * J)) by (apply Z.mul_le_mono_nonneg_r; lia).
    assert ((s + 1) * (H * J) < (s + 2) * (H * J)) by lia.
    destruct HVf as [[_ ->]|(_ & Hlo & Hhi)]; lia. }
  destruct (SFadd_one_spec mf ef sh) as (mg & eg & Hadd & Hng & Heg & Hvg & Hexg);
    [done|lia|lia|by rewrite Hmadd|].
  rewrite Hmadd in Hvg, Hexg. fold T in Hvg, Hexg.
  set (Vg := Zpos mg * 2 ^ (eg + 52)) in *.
  assert (HVg : (k = s * s /\ Vg = (s + 1) * 2 ^ 52) \/
                (s * s < k /\ (s + 1) * 2 ^ 52 < Vg <= (s + 2) * 2 ^ 52)).
  { rewrite <-HHJ. destruct HVf as [[Hsq HVf]|(Hnsq & Hlo & Hhi)].
    - left. split; [done|]. rewrite Hexg; [done|].
      rewrite HVf, HHJ, <-HTU.
      replace ((s + 1) * (T * U)) with ((s + 1) * U * T) by ring.
      apply Z.mod_mul. lia.
    - right. split; [done|].
      assert ((s + 1) * U + 1 <= Madd / T).
      { apply Z.div_le_lower_bound; [lia|].
        replace (T * ((s + 1) * U + 1)) with ((s + 1) * (T * U) + T) by ring.
        rewrite HTU, <-HHJ. lia. }
      assert (Madd / T + 1 <= (s + 2) * U).
      { assert (Madd / T < (s + 2) * U); [|lia].
        apply Z.div_lt_upper_bound; [lia|].
        replace (T * ((s + 2) * U)) with ((s + 2) * (T * U)) by ring.
        rewrite HTU, <-HHJ. lia. }
      assert (((s + 1) * U + 1) * T <= Madd / T * T)
        by (apply Z.mul_le_mono_nonneg_r; lia).
      assert ((Madd / T + 1) * T <= (s + 2) * U * T)
        by (apply Z.mul_le_mono_nonneg_r; lia).
      replace ((s + 1) * (H * J)) with ((s + 1) * U * T) by (rewrite HHJ, <-HTU; ring).
      replace ((s + 2) * (H * J)) with ((s + 2) * U * T) by (rewrite HHJ, <-HTU; ring).
      lia. }
  (* halving and ceiling *)
  exists (- (- Zpos mg / 2 ^ (1 - eg))). split.
  { assert (Hegr : -1000 <= eg <= 900) by (clear - Heg Hsh0 Hsha Ha; lia).
    assert (Hlt : eg - 1 < 0) by (clear - Heg Hsh0 Hsha Ha; lia).
    assert (Hneg : (0 <=? eg - 1) = false) by (by apply Z.leb_gt).
    assert (Hopp : - (eg - 1) = 1 - eg) by (clear; lia).
    pose proof (SFmul_half_spec mg eg Hng Hegr) as Hmul.
    clear - Hconv Hsqrt Hadd Hmul Hneg Hopp.
    unfold Float64.of_int. change (binary_normalize _ _ k 0 false) with (float_of_Z k).
    rewrite Hconv, result_bind_Ok.
    change (Float64.sqrt (S754_finite false mk (d - 53)))
      with (Ok (SFsqrt prec emax (S754_finite false mk (d - 53)))).
    rewrite Hsqrt, result_bind_Ok.
    unfold Float64.add, Float64.mul. rewrite Hadd, Hmul.
    unfold Float64.ceil. rewrite Hneg, Hopp. reflexivity. }
  clear - Hs Hs1 HVg Heg Hsh0 Hsha Ha.
  set (D := 2 ^ (1 - eg)).
  assert (HD : 0 < D) by (apply Z.pow_pos_nonneg; lia).
  set (E := 2 ^ (eg + 52)) in *.
  assert (HE : 0 < E) by (apply Z.pow_pos_nonneg; lia).
  assert (HDE : D * E = 2 * 2 ^ 52).
  { unfold D, E. rewrite <-pow2_split by lia. replace (1 - eg + (eg + 52)) with 53 by lia. done. }
  pose proof (ceil_div_bounds (Zpos mg) D HD) as Hr.
  set (r := - (- Zpos mg / D)) in *.
  assert (HrV : 2 * 2 ^ 52 * (r - 1) < Vg <= 2 * 2 ^ 52 * r).
  { rewrite <-HDE. unfold Vg.
    replace (D * E * (r - 1)) with (D * (r - 1) * E) by ring.
    replace (D * E * r) with (D * r * E) by ring.
    split.
    - apply Z.mul_lt_mono_pos_r; lia.
    - apply Z.mul_le_mono_nonneg_r; lia. }
  destruct HVg as [[-> ->]|(Hnsq & Hbounds)].
  - apply (ring_of_square s r (2 ^ 52)); lia.
  - apply (ring_of_nonsquare s k r (2 ^ 52) Vg); lia.
Qed.

(** ** Rounding to nearest *)

Lemma shr_1_fields mrs :
  0 <= shr_m mrs ->
  shr_m mrs = 2 * shr_m (shr_1 mrs) + (if shr_r (shr_1 mrs) then 1 else 0) /\
  shr_s (shr_1 mrs) = shr_r mrs || shr_s mrs.
Proof.
  destruct mrs as [m r s]; simpl. intros Hm.
  destruct m as [|[p|p|]|p]; simpl; try lia; split; (lia || reflexivity).
Qed.

(** After [n] shifts of an exact mantissa the record holds the quotient,
    the first dropped bit and whether anything was dropped below it. *)
Lemma shr_iter_fields n m :
  0 <= m ->
  let mrs := Nat.iter n shr_1 (Build_shr_record m false false) in
  exists t, 0 <= t < 2 ^ Z.of_nat n /\ (shr_s mrs = false <-> t = 0) /\
    0 <= shr_m mrs /\
    2 * m = shr_m mrs * 2 ^ (Z.of_nat n + 1)
            + (if shr_r mrs then 2 ^ Z.of_nat n else 0) + t.
Proof.
  intros Hm. induction n as [|n IH].
  - exists 0. simpl. repeat split; lia.
  - destruct IH as (t & Ht & Hs & Hq & Heq). simpl Nat.iter.
    set (mrs := Nat.iter n shr_1 _) in *.
    destruct (shr_1_fields mrs Hq) as [Hm1 Hs1].
    rewrite Nat2Z.inj_succ.
    replace (Z.succ (Z.of_nat n) + 1) with (Z.succ (Z.of_nat n + 1)) by lia.
    rewrite !Z.pow_succ_r by lia.
    assert (HP : 0 < 2 ^ Z.of_nat n) by (apply Z.pow_pos_nonneg; lia).
    rewrite Z.pow_add_r in * by lia. simpl (2 ^ 1) in *.
    set (P := 2 ^ Z.of_nat n) in *.
    exists ((if shr_r mrs then P else 0) + t).
    rewrite Hs1. split; [destruct (shr_r mrs); lia|]. split.
    + rewrite orb_false_iff. destruct (shr_r mrs).
      * split; [intros [? _]; discriminate|lia].
      * split; [intros [_ H0]; apply Hs in H0; lia|].
        intros H0. split; [done|]. apply Hs. lia.
    + split; [destruct (shr_r (shr_1 mrs)); lia|].
      rewrite Heq, Hm1. destruct (shr_r (shr_1 mrs)); ring.
Qed.

Lemma shr_iter_nearest n m :
  0 <= m ->
  let mrs := Nat.iter n shr_1 (Build_shr_record m false false) in
  let N := round_nearest_even (shr_m mrs) (loc_of_shr_record mrs) in
  - 2 ^ Z.of_nat n <= 2 * m - N * 2 ^ (Z.of_nat n + 1) <= 2 ^ Z.of_nat n.
Proof.
  intros Hm mrs N. destruct (shr_iter_fields n m Hm) as (t & Ht & Hs & Hq & Heq).
  fold mrs in Hs, Hq, Heq. subst N.
  rewrite Z.pow_add_r in * by lia. simpl (2 ^ 1) in *.
  set (P := 2 ^ Z.of_nat n) in *.
  destruct mrs as [q r s]. simpl in *.
  destruct r, s; simpl.
  - assert (t <> 0) by (intros ->; by destruct Hs as [_ Hs]; specialize (Hs eq_refl)). lia.
  - assert (t = 0) by (by apply Hs). destruct (Z.even q); lia.
  - lia.
  - assert (t = 0) by (by apply Hs). lia.
Qed.

Lemma finish_exact x e :
  2 ^ 52 <= x < 2 ^ 53 -> -1074 <= e <= 970 ->
  finish x e = S754_finite false (Z.to_pos x) e.
Proof.
  intros Hx He. unfold finish.
  rewrite (shr_fexp_digits _ _ _ 0) by (try apply Zdigits2_unique; lia).
  simpl shr. destruct x as [|p|p]; try lia. simpl shr_m.
  replace (e <=? emax - prec) with true
    by (symmetry; apply Z.leb_le; unfold emax, prec; lia).
  reflexivity.
Qed.

Lemma binary_round_aux_53_exact m e l :
  2 ^ 52 <= m < 2 ^ 53 -> -1074 <= e <= 970 ->
  round_nearest_even m l < 2 ^ 53 ->
  binary_round_aux prec emax false m e l
  = S754_finite false (Z.to_pos (round_nearest_even m l)) e.
Proof.
  intros Hm He Hr. rewrite binary_round_aux_finish.
  rewrite (shr_fexp_digits _ _ _ 0) by (try apply Zdigits2_unique; lia).
  simpl shr. cbv beta iota zeta.
  assert (Hl : loc_of_shr_record (shr_record_of_loc m l) = l) by (by destruct l as [|[]]).
  assert (Hs : shr_m (shr_record_of_loc m l) = m) by (by destruct l as [|[]]).
  rewrite Hl, Hs. apply finish_exact; [|done].
  pose proof (round_nearest_even_bounds m l). lia.
Qed.

(** Rounding an exact mantissa of [53 + sh] bits yields a double within
    half a unit of the last place kept. *)
Lemma binary_round_aux_nearest m e sh :
  1 <= sh -> 2 ^ (52 + sh) <= m < 2 ^ (53 + sh) -> -1074 <= e + sh <= 970 ->
  exists mg eg, binary_round_aux prec emax false m e loc_Exact = S754_finite false mg eg /\
    normal mg /\ e + sh <= eg <= e + sh + 1 /\
    - 2 ^ sh <= 2 * m - 2 * (Zpos mg * 2 ^ (eg - e)) <= 2 ^ sh.
Proof.
  intros Hsh Hm He.
  assert (Hpos : 0 < m).
  { assert (0 < 2 ^ (52 + sh)) by (apply Z.pow_pos_nonneg; lia). lia. }
  rewrite binary_round_aux_finish.
  rewrite (shr_fexp_digits _ _ _ sh) by (try apply Zdigits2_unique; try lia;
    replace (53 + sh - 1) with (52 + sh) by lia; done).
  destruct sh as [|p|p]; try lia. unfold shr. simpl shr_record_of_loc.
  cbv beta iota zeta.
  rewrite iter_pos_nat.
  pose proof (shr_iter_nearest (Pos.to_nat p) m ltac:(lia)) as Hnear.
  cbv zeta in Hnear. rewrite positive_nat_Z in Hnear.
  set (mrs := Nat.iter _ _ _) in *.
  assert (Hq : shr_m mrs = m / 2 ^ Zpos p).
  { unfold mrs. rewrite shr_iter_m by (simpl; lia). by rewrite positive_nat_Z. }
  set (P := 2 ^ Zpos p) in *.
  assert (HP : 0 < P) by (unfold P; lia).
  assert (Hqb : 2 ^ 52 <= m / P < 2 ^ 53).
  { rewrite !(Z.pow_add_r 2 _ (Z.pos p)) in Hm by lia. fold P in Hm. split.
    - apply Z.div_le_lower_bound; lia.
    - apply Z.div_lt_upper_bound; lia. }
  pose proof (round_nearest_even_bounds (shr_m mrs) (loc_of_shr_record mrs)) as Hr.
  rewrite Hq in Hr.
  destruct (finish_spec (round_nearest_even (shr_m mrs) (loc_of_shr_record mrs)) (e + Zpos p))
    as (mg & eg & -> & Hn & Heg & Hv); [rewrite Hq; lia|lia|].
  exists mg, eg. split; [done|]. split; [done|]. split; [lia|].
  assert (Hpow : 2 ^ (eg - e) = 2 ^ (eg - (e + Z.pos p)) * P).
  { unfold P. rewrite <-Z.pow_add_r by lia. f_equal. lia. }
  replace (Zpos mg * 2 ^ (eg - e))
    with (round_nearest_even (shr_m mrs) (loc_of_shr_record mrs) * P)
    by (rewrite Hpow, <-Hv; ring).
  rewrite Z.pow_add_r in Hnear by lia. fold P in Hnear. simpl (2 ^ 1) in Hnear.
  lia.
Qed.

(** ** Conversion of an integer of more than 53 bits *)

Lemma float_of_Z_nearest k d :
  54 <= d <= 1023 -> 2 ^ (d - 1) <= k < 2 ^ d ->
  exists mk ek, float_of_Z k = S754_finite false mk ek /\ normal mk /\
    d - 53 <= ek <= d - 52 /\
    - 2 ^ (d - 53) <= 2 * k - 2 * (Zpos mk * 2 ^ ek) <= 2 ^ (d - 53).
Proof.
  intros Hd Hk.
  assert (0 < 2 ^ (d - 1)) by (apply Z.pow_pos_nonneg; lia).
  destruct k as [|p|p]; try lia.
  unfold float_of_Z, binary_normalize, binary_round.
  rewrite (digits2_pos_unique p d) by done.
  replace (fexp prec emax (d + 0)) with (d - 53)
    by (unfold fexp, SpecFloat.emin, prec, emax; lia).
  unfold shl_align. rewrite Z.sub_0_r.
  destruct (d - 53) as [|sh|sh] eqn:Hsh; try lia. cbv beta iota zeta.
  destruct (binary_round_aux_nearest (Zpos p) 0 (Zpos sh)) as (mg & eg & -> & Hn & Heg & Hv);
    [lia| |lia|].
  { replace (52 + Zpos sh) with (d - 1) by lia. replace (53 + Zpos sh) with d by lia. done. }
  exists mg, eg. rewrite Z.sub_0_r in Hv. split; [done|]. split; [done|]. split; [lia|done].
Qed.

(** ** The square root that rounds to a given double *)

Lemma SFsqrt_exact mx ex a q0 :
  normal mx -> 1 <= a <= 53 -> 2 * a - 54 <= ex <= 2 * a - 53 ->
  let j := 53 - a in
  let M := Zpos mx * 2 ^ (ex + 2 * j) in
  2 ^ 52 <= q0 < 2 ^ 53 -> q0 * q0 - q0 < M <= q0 * q0 + q0 ->
  SFsqrt prec emax (S754_finite false mx ex) = S754_finite false (Z.to_pos q0) (- j).
Proof.
  intros Hn Ha Hex j M Hq0 HMq. unfold SFsqrt, SFsqrt_core_binary.
  rewrite (Zdigits2_unique (Zpos mx) 53) by (unfold normal in Hn; lia).
  assert (He' : Z.min (fexp prec emax (Z.div2 (53 + ex + 1))) (Z.div2 ex) = - j).
  { unfold fexp, SpecFloat.emin, prec, emax. rewrite !Z.div2_div. subst j. dlia. }
  rewrite He'.
  assert (Hs : ex - 2 * - j = ex + 2 * j) by lia. rewrite Hs.
  assert (Hsh : 52 <= ex + 2 * j <= 53) by (subst j; lia).
  destruct (ex + 2 * j) as [|sp|sp] eqn:Hsp; try lia.
  rewrite Z.shiftl_mul_pow2 by lia. fold M.
  assert (HM : 2 ^ 104 <= M < 2 ^ 106).
  { unfold M, normal in *.
    assert (2 ^ Z.pos sp = 2 ^ 52 \/ 2 ^ Z.pos sp = 2 ^ 53) as [-> | ->]
      by (assert (Z.pos sp = 52 \/ Z.pos sp = 53) as [-> | ->] by lia; auto).
    all: lia. }
  pose proof (Z.sqrtrem_spec M ltac:(lia)) as Hspec.
  pose proof (Z.sqrtrem_sqrt M) as Hfst.
  destruct (Z.sqrtrem M) as [q r]. simpl in Hfst. subst q.
  destruct Hspec as [HMq' Hr].
  assert (Hq : 2 ^ 52 <= Z.sqrt M < 2 ^ 53).
  { split.
    - apply Z.sqrt_le_square; lia.
    - apply Z.sqrt_lt_square; lia. }
  clearbody M. clear Hsp Hs He'.
  destruct (Z_le_gt_dec (q0 * q0) M) as [Hge|Hlt].
  - assert (Hsq : Z.sqrt M = q0).
    { apply Z.sqrt_unique. unfold Z.succ. nia. }
    rewrite Hsq in *.
    assert (Hl : round_nearest_even q0
              (if r =? 0 then loc_Exact else loc_Inexact (if r <=? q0 then Lt else Gt)) = q0).
    { destruct (Z.eqb_spec r 0); [done|].
      replace (r <=? q0) with true by (symmetry; apply Z.leb_le; lia). done. }
    rewrite binary_round_aux_53_exact by (rewrite ?Hl; subst j; lia).
    by rewrite Hl.
  - assert (Hsq : Z.sqrt M = q0 - 1).
    { apply Z.sqrt_unique. unfold Z.succ. nia. }
    rewrite Hsq in *.
    assert (Hl : round_nearest_even (q0 - 1)
              (if r =? 0 then loc_Exact else loc_Inexact (if r <=? q0 - 1 then Lt else Gt)) = q0).
    { replace (r =? 0) with false by (symmetry; apply Z.eqb_neq; nia).
      replace (r <=? q0 - 1) with false by (symmetry; apply Z.leb_gt; nia).
      simpl. lia. }
    rewrite binary_round_aux_53_exact by (rewrite ?Hl; subst j; lia).
    by rewrite Hl.
Qed.

(** ** The closed form at a perfect square *)

Lemma ceil_spec mg e :
  -60 <= e <= 60 ->
  exists r, Float64.ceil (S754_finite false mg e) = Ok r /\
    2 ^ 60 * (r - 1) < Zpos mg * 2 ^ (e + 60) <= 2 ^ 60 * r.
Proof.
  intros He. unfold Float64.ceil.
  destruct (Z.leb_spec 0 e) as [Hnn|Hneg].
  - eexists. split; [reflexivity|].
    rewrite Z.pow_add_r by lia.
    assert (0 < 2 ^ e) by (apply Z.pow_pos_nonneg; lia).
    assert (0 < Zpos mg * 2 ^ e) by lia. lia.
  - eexists. split; [reflexivity|].
    set (D := 2 ^ (- e)).
    assert (HD : 0 < D) by (apply Z.pow_pos_nonneg; lia).
    assert (HDE : D * 2 ^ (e + 60) = 2 ^ 60).
    { unfold D. rewrite <-Z.pow_add_r by lia. f_equal. lia. }
    pose proof (ceil_div_bounds (Zpos mg) D HD) as Hr.
    set (r := - (- Zpos mg / D)) in *.
    assert (0 < 2 ^ (e + 60)) by (apply Z.pow_pos_nonneg; lia).
    rewrite <-HDE. split.
    + replace (D * 2 ^ (e + 60) * (r - 1)) with (D * (r - 1) * 2 ^ (e + 60)) by ring.
      apply Z.mul_lt_mono_pos_r; lia.
    + replace (D * 2 ^ (e + 60) * r) with (D * r * 2 ^ (e + 60)) by ring.
      apply Z.mul_le_mono_nonneg_r; lia.
Qed.

Lemma pow2_bits s : 1 <= s ->
  exists a, 1 <= a /\ 2 ^ (a - 1) <= s < 2 ^ a.
Proof.
  intros Hs. exists (Z.log2 s + 1).
  pose proof (Z.log2_nonneg s). pose proof (Z.log2_spec s ltac:(lia)) as Hl.
  unfold Z.succ in Hl. replace (Z.log2 s + 1 - 1) with (Z.log2 s) by lia. lia.
Qed.

(** [float(s * s)] is a double whose square root rounds to [s]. *)
Lemma sqrt_of_square s a :
  1 <= a <= 53 -> 2 ^ (a - 1) <= s < 2 ^ a ->
  exists x, Float64.of_int (s * s) = Ok x /\
    Float64.sqrt x = Ok (S754_finite false (Z.to_pos (s * 2 ^ (53 - a))) (a - 53)).
Proof.
  intros Ha Hs.
  set (H := 2 ^ (a - 1)) in *.
  assert (HH : 0 < H) by (apply Z.pow_pos_nonneg; lia).
  assert (HA : 2 ^ a = 2 * H).
  { replace a with (1 + (a - 1)) at 1 by lia. rewrite pow2_split by lia. done. }
  rewrite HA in Hs.
  set (j := 53 - a). set (J := 2 ^ j).
  assert (HJ : 0 < J) by (apply Z.pow_pos_nonneg; lia).
  assert (HHJ : H * J = 2 ^ 52).
  { unfold H, J, j. rewrite <-pow2_split by lia. f_equal. lia. }
  set (k := s * s).
  assert (Hkr : H * H <= k < 4 * (H * H)).
  { apply (bits_of_square_range H s k); [done|done|unfold k; lia]. }
  assert (E1 : 2 ^ (2 * a - 1 - 1) = H * H).
  { unfold H. rewrite <-pow2_split by lia. f_equal. lia. }
  assert (E2 : 2 ^ (2 * a - 1) = 2 * (H * H)).
  { replace (2 * a - 1) with (1 + ((a - 1) + (a - 1))) by lia.
    rewrite !pow2_split by lia. done. }
  assert (E3 : 2 ^ (2 * a) = 4 * (H * H)).
  { replace (2 * a) with (2 + ((a - 1) + (a - 1))) by lia.
    rewrite !pow2_split by lia. done. }
  set (q0 := s * J).
  assert (Hq0 : 2 ^ 52 <= q0 < 2 ^ 53).
  { unfold q0. change (2 ^ 53) with (2 * 2 ^ 52). rewrite <-HHJ. nia. }
  (* the number of bits of k, and how far above H the root lies *)
  assert (Hd : exists d, 2 * a - 1 <= d <= 2 * a /\ 2 ^ (d - 1) <= k < 2 ^ d /\
            2 ^ (d - a) < 2 * s).
  { destruct (Z_lt_le_dec k (2 * (H * H))) as [Hlt|Hge].
    - exists (2 * a - 1). rewrite E1, E2. split; [lia|]. split; [lia|].
      replace (2 * a - 1 - a) with (a - 1) by lia. fold H. lia.
    - exists (2 * a). rewrite E2, E3. split; [lia|]. split; [lia|].
      replace (2 * a - a) with a by lia. rewrite HA.
      assert (H < s); [|lia].
      destruct (Z_lt_le_dec H s) as [|Hle]; [done|exfalso].
      assert (s = H) by lia. subst s. unfold k in Hge. nia. }
  destruct Hd as (d & Hd & Hkd & Hmargin).
  unfold Float64.of_int. change (binary_normalize Float64.prec Float64.emax k 0 false) with (float_of_Z k).
  destruct (Z_le_gt_dec d 53) as [Hsmall|Hbig].
  - (* the square is a double *)
    destruct (float_of_Z_exact k d) as (mk & -> & Hnk & Hmk); [lia|done|].
    eexists. split; [reflexivity|].
    change (Float64.sqrt (S754_finite false mk (d - 53)))
      with (Ok (SFsqrt prec emax (S754_finite false mk (d - 53)))).
    f_equal. replace (a - 53) with (- (53 - a)) by lia.
    apply (SFsqrt_exact mk (d - 53) a q0); [done|lia|lia|done|].
    fold j.
    assert (HM : Zpos mk * 2 ^ (d - 53 + 2 * j) = q0 * q0).
    { rewrite Hmk, <-Z.mul_assoc, <-pow2_split by lia.
      replace (53 - d + (d - 53 + 2 * j)) with (j + j) by lia.
      rewrite pow2_split by (unfold j; lia). fold J. unfold q0, k. ring. }
    rewrite HM. lia.
  - (* the square is rounded *)
    destruct (float_of_Z_nearest k d) as (mk & ek & -> & Hnk & Hek & Hnear); [lia|done|].
    eexists. split; [reflexivity|].
    change (Float64.sqrt (S754_finite false mk ek))
      with (Ok (SFsqrt prec emax (S754_finite false mk ek))).
    f_equal. replace (a - 53) with (- (53 - a)) by lia.
    set (sh := d - 53) in *.
    set (T := 2 ^ sh) in *.
    assert (HT : 0 < T) by (apply Z.pow_pos_nonneg; lia).
    assert (HTJ : T * J = 2 ^ (d - a)).
    { unfold T, J, sh, j. rewrite <-pow2_split by lia. f_equal. lia. }
    set (y := Zpos mk * 2 ^ ek) in *.
    assert (Hy : 2 ^ 52 * 2 ^ ek <= y).
    { unfold y, normal in *. apply Z.mul_le_mono_nonneg_r; [|lia].
      apply Z.pow_nonneg. lia. }
    assert (Hek' : ek <= 2 * a - 53).
    { destruct (Z_le_gt_dec ek (2 * a - 53)) as [|Hgt]; [done|exfalso].
      assert (d = 2 * a) by lia. assert (ek = 2 * a - 52) by lia. subst d ek.
      rewrite <-pow2_split in Hy by lia.
      replace (52 + (2 * a - 52)) with (2 * a) in Hy by lia.
      rewrite E3 in Hy.
      assert (T <= 2 * H).
      { unfold T, sh. rewrite <-HA. apply Z.pow_le_mono_r; lia. }
      assert (k <= (2 * H - 1) * (2 * H - 1))
        by (unfold k; apply Z.square_le_mono_nonneg; lia).
      lia. }
    apply (SFsqrt_exact mk ek a q0); [done|lia|lia|done|].
    fold j.
    assert (HM : Zpos mk * 2 ^ (ek + 2 * j) = y * (J * J)).
    { unfold y, J. rewrite <-Z.mul_assoc, <-!pow2_split by (unfold j; lia).
      do 2 f_equal. lia. }
    rewrite HM.
    assert (Hqq : q0 * q0 = k * (J * J)) by (unfold q0, k; ring).
    assert (Hgap : T * (J * J) < 2 * q0).
    { unfold q0. rewrite Z.mul_assoc, HTJ.
      replace (2 * (s * J)) with (2 * s * J) by ring.
      apply Z.mul_lt_mono_pos_r; lia. }
    assert (HJJ : 0 < J * J) by nia.
    assert (- (T * (J * J)) <= 2 * (k * (J * J)) - 2 * (y * (J * J)) <= T * (J * J)).
    { replace (2 * (k * (J * J)) - 2 * (y * (J * J)))
        with ((2 * k - 2 * y) * (J * J)) by ring.
      split.
      - replace (- (T * (J * J))) with (- T * (J * J)) by ring.
        apply Z.mul_le_mono_nonneg_r; lia.
      - apply Z.mul_le_mono_nonneg_r; lia. }
    lia.
Qed.

Lemma closed_form_square s :
  1 <= s < 2 ^ 53 ->
  exists r,
    (x ← Float64.of_int (s * s); root ← Float64.sqrt x;
     Float64.ceil (Float64.mul Float64.half (Float64.add Float64.one root))) = Ok r /\
    2 * (r - 1) < s + 1 <= 2 * r.
Proof.
  intros Hs.
  destruct (pow2_bits s) as (a & Ha1 & Hsa); [lia|].
  assert (Ha : 1 <= a <= 53).
  { split; [done|]. assert (a - 1 < 53); [|lia]. apply pow2_lt_inv; lia. }
  destruct (sqrt_of_square s a Ha Hsa) as (x & Hx & Hroot).
  set (H := 2 ^ (a - 1)) in *.
  assert (HH : 0 < H) by (apply Z.pow_pos_nonneg; lia).
  set (J := 2 ^ (53 - a)) in *.
  assert (HJ : 0 < J) by (apply Z.pow_pos_nonneg; lia).
  assert (HHJ : H * J = 2 ^ 52).
  { unfold H, J. rewrite <-pow2_split by lia. f_equal. lia. }
  assert (HA : 2 ^ a = 2 * H).
  { replace a with (1 + (a - 1)) at 1 by lia. rewrite pow2_split by lia. done. }
  rewrite HA in Hsa.
  set (q0 := s * J) in *.
  assert (Hq0 : 2 ^ 52 <= q0 < 2 ^ 53).
  { unfold q0. change (2 ^ 53) with (2 * 2 ^ 52). rewrite <-HHJ. nia. }
  assert (Hnf : normal (Z.to_pos q0)) by (unfold normal; rewrite Z2Pos.id by lia; done).
  (* the sum *)
  destruct (pow2_bits (s + 1)) as (b & Hb1 & Hsb); [lia|].
  set (sh := b - 1).
  assert (Hsh : 0 <= sh <= 53).
  { split; [unfold sh; lia|]. assert (b - 1 < 54); [|unfold sh; lia].
    apply pow2_lt_inv; [lia|]. change (2 ^ 54) with (2 * 2 ^ 53). lia. }
  set (T := 2 ^ sh) in *.
  assert (HT : 0 < T) by (apply Z.pow_pos_nonneg; lia).
  assert (HB : 2 ^ b = 2 * T).
  { replace b with (1 + sh) by (unfold sh; lia). rewrite pow2_split by lia. done. }
  rewrite HB in Hsb. replace (b - 1) with sh in Hsb by (unfold sh; lia). fold T in Hsb.
  assert (Hmadd : 2 ^ 52 + Zpos (Z.to_pos q0) * 2 ^ (a - 53 + 52) = (s + 1) * 2 ^ 52).
  { rewrite Z2Pos.id by lia. unfold q0. replace (a - 53 + 52) with (a - 1) by lia.
    fold H. rewrite <-Z.mul_assoc, (Z.mul_comm J H), HHJ. ring. }
  destruct (SFadd_one_spec (Z.to_pos q0) (a - 53) sh) as (mg & eg & Hadd & Hng & Heg & _ & Hexg);
    [done|lia|lia| |].
  { rewrite Hmadd, !(pow2_split _ sh) by lia. fold T.
    change (2 ^ 53) with (2 * 2 ^ 52). nia. }
  rewrite Hmadd in Hexg. fold T in Hexg.
  assert (HVg : Zpos mg * 2 ^ (eg + 52) = (s + 1) * 2 ^ 52).
  { apply Hexg. destruct (Z.eq_dec sh 53) as [E|Hne].
    - assert (s + 1 = 2 ^ 53) by (unfold T in Hsb; rewrite E in Hsb; lia).
      rewrite H0. unfold T. rewrite E. reflexivity.
    - assert (HTU : 2 ^ 52 = T * 2 ^ (52 - sh)).
      { unfold T. rewrite <-pow2_split by lia. f_equal. lia. }
      rewrite HTU. replace ((s + 1) * (T * 2 ^ (52 - sh))) with ((s + 1) * 2 ^ (52 - sh) * T) by ring.
      apply Z.mod_mul. lia. }
  pose proof (SFmul_half_spec mg eg Hng ltac:(lia)) as Hmul.
  destruct (ceil_spec mg (eg - 1) ltac:(lia)) as (r & Hceil & Hr).
  exists r. split.
  { rewrite Hx, result_bind_Ok, Hroot, result_bind_Ok.
    unfold Float64.add, Float64.mul. rewrite Hadd, Hmul. exact Hceil. }
  clear - Hr HVg Heg Hsh.
  assert (E : Zpos mg * 2 ^ (eg - 1 + 60) = (s + 1) * 2 ^ 52 * 2 ^ 7).
  { rewrite <-HVg, <-Z.mul_assoc, <-pow2_split by lia. do 2 f_equal. lia. }
  rewrite E in Hr. change (2 ^ 60) with (2 * (2 ^ 52 * 2 ^ 7)) in Hr. lia.
Qed.

(** * Ring arithmetic: the closed form against the ring boundaries *)

Lemma maxExactCells_eq : maxExactCells = totalPositionsUpToRing maxExactRings.
Proof. reflexivity. Qed.

Lemma totalPositionsUpToRing_mono r r' :
  1 <= r <= r' -> totalPositionsUpToRing r <= totalPositionsUpToRing r'.
Proof. unfold totalPositionsUpToRing. intros. nia. Qed.

Lemma totalPositionsUpToRing_lt r r' :
  1 <= r < r' -> totalPositionsUpToRing r < totalPositionsUpToRing r'.
Proof. unfold totalPositionsUpToRing. intros. nia. Qed.

(** Within the exact range the closed form lands in the ring that holds
    the cell. *)
Lemma numRingsToHoldNumCells_exact n :
  1 <= n <= maxExactCells ->
  exists r, numRingsToHoldNumCells n = Ok r /\ 1 <= r <= maxExactRings /\
    n <= totalPositionsUpToRing r /\
    (2 <= r -> totalPositionsUpToRing (r - 1) < n).
Proof.
  unfold maxExactCells, maxExactRings. intros Hn. unfold numRingsToHoldNumCells.
  replace (n =? 0) with false by (symmetry; apply Z.eqb_neq; lia).
  set (q := 4 * (n - 1) / 3).
  assert (Hq : 3 * q <= 4 * (n - 1) < 3 * q + 3) by (unfold q; dlia).
  clearbody q.
  destruct (closed_form_spec (1 + q)) as (r & -> & Hr1 & Hup & Hlo); [lia|].
  exists r. split; [done|]. unfold totalPositionsUpToRing.
  assert (n <= 1 + 3 * r * (r - 1)) by lia.
  assert (2 <= r -> 1 + 3 * (r - 1) * (r - 1 - 1) < n) by (intros H2; specialize (Hlo H2); lia).
  split; [|done]. split; [done|].
  destruct (Z_le_gt_dec r 33554432) as [|Hgt]; [done|exfalso].
  assert (H2 : 2 <= r) by lia. specialize (H0 H2).
  assert (1 + 3 * 33554432 * (33554432 - 1) <= 1 + 3 * (r - 1) * (r - 1 - 1)) by nia.
  lia.
Qed.

(** A ring is determined by the two boundaries around the cell count. *)
Lemma ring_unique n r r' :
  1 <= r -> n <= totalPositionsUpToRing r ->
  (2 <= r -> totalPositionsUpToRing (r - 1) < n) ->
  1 <= r' -> n <= totalPositionsUpToRing r' ->
  (2 <= r' -> totalPositionsUpToRing (r' - 1) < n) ->
  r = r'.
Proof.
  intros Hr Hup Hlo Hr' Hup' Hlo'.
  destruct (Z.lt_trichotomy r r') as [Hlt|[->|Hgt]]; [exfalso| done |exfalso].
  - pose proof (totalPositionsUpToRing_mono r (r' - 1) ltac:(lia)).
    specialize (Hlo' ltac:(lia)). lia.
  - pose proof (totalPositionsUpToRing_mono r' (r - 1) ltac:(lia)).
    specialize (Hlo ltac:(lia)). lia.
Qed.

Lemma numRingsToHoldNumCells_in_ring n r :
  1 <= r <= maxExactRings ->
  n <= totalPositionsUpToRing r ->
  (2 <= r -> totalPositionsUpToRing (r - 1) < n) -> 1 <= n ->
  numRingsToHoldNumCells n = Ok r.
Proof.
  intros Hr Hup Hlo Hn.
  assert (n <= maxExactCells).
  { rewrite maxExactCells_eq.
    pose proof (totalPositionsUpToRing_mono r maxExactRings ltac:(lia)). lia. }
  destruct (numRingsToHoldNumCells_exact n) as (r' & -> & Hr' & Hup' & Hlo'); [lia|].
  f_equal. symmetry. by apply (ring_unique n); try lia.
Qed.

Lemma numRingsToHoldNumCells_full r :
  1 <= r <= maxExactRings ->
  numRingsToHoldNumCells (totalPositionsUpToRing r) = Ok r.
Proof.
  intros Hr. apply numRingsToHoldNumCells_in_ring; try done.
  - intros. apply totalPositionsUpToRing_lt. lia.
  - unfold totalPositionsUpToRing. nia.
Qed.

Lemma numRingsToHoldNumCells_full_hexagon R :
  1 <= R <= maxFullRings ->
  numRingsToHoldNumCells (totalPositionsUpToRing R) = Ok R.
Proof.
  unfold maxFullRings. intros HR. unfold numRingsToHoldNumCells, totalPositionsUpToRing.
  replace (1 + 3 * R * (R - 1) =? 0) with false by (symmetry; apply Z.eqb_neq; nia).
  replace (4 * (1 + 3 * R * (R - 1) - 1) / 3) with (4 * R * (R - 1))
    by (apply Z.div_unique with 0; lia).
  replace (1 + 4 * R * (R - 1)) with ((2 * R - 1) * (2 * R - 1)) by ring.
  destruct (closed_form_square (2 * R - 1)) as (r & -> & Hr); [lia|].
  f_equal. lia.
Qed.

(** * Ring arithmetic: the statements of the specification *)

(** C1. The closed form is meant to return the minimal ring [r] with
    [1 + 3 r (r - 1) >= cellCount] for every [cellCount >= 1].  One cell
    past a full hexagon of [2^25] rings it does not: the double nearest to
    [1 + sqrt k] is [2^26] itself (a tie, rounded to even), so the ceiling
    yields [2^25], a ring too small to hold the cells. *)
Theorem C1_closed_form_one_ring_short :
  numRingsToHoldNumCells 3377699619864578 = Ok 33554432 /\
  totalPositionsUpToRing 33554432 < 3377699619864578 /\
  3377699619864578 <= totalPositionsUpToRing 33554433.
Proof. split; [by vm_compute|]. split; [reflexivity|by vm_compute]. Qed.

(** C10. At the size of a full hexagon the closed form is meant to return
    the number of rings of that hexagon.  For [R = 2^52 + 1] rings the
    odd number [2 R - 1] is no double, and the result is [2^52]. *)
Theorem C10_full_hexagon_one_ring_short :
  numRingsToHoldNumCells (totalPositionsUpToRing 4503599627370497)
  = Ok 4503599627370496.
Proof. by vm_compute. Qed.

(** C5. [totalPositionsUpToRing 0] is [1], not [0]. *)
Lemma C5_ring_zero_counterexample :
  totalPositionsUpToRing 0 = 1 /\ totalPositionsUpToRing 0 <> 0.
Proof. split; [reflexivity|discriminate]. Qed.

(** C5, as the code has it: [totalPositionsUpToRing] is the polynomial
    [1 + 3 ring (ring - 1)] at every integer, with no case for ring 0
    (where it is 1), and its result is positive throughout. *)
Theorem C5_totalPositionsUpToRing (ring : Z) :
  totalPositionsUpToRing ring = 1 + 3 * ring * (ring - 1) /\
  totalPositionsUpToRing 0 = 1 /\
  1 <= totalPositionsUpToRing ring.
Proof. unfold totalPositionsUpToRing. repeat split. nia. Qed.

(** C6. [numPositionsInRing] does not reject rings below 1: for ring 0 it
    returns [-6]. *)
Lemma C6_no_rejection_counterexample :
  numPositionsInRing 0 = -6 /\ numPositionsInRing (-3) = -24.
Proof. split; reflexivity. Qed.

(** C6, as the code has it: 1 for ring 1 and [6 (ring - 1)] for every
    other integer, a positive multiple of 6 from ring 2 on and a negative
    one below ring 1; no ring is rejected. *)
Theorem C6_numPositionsInRing (ring : Z) :
  (ring = 1 -> numPositionsInRing ring = 1) /\
  (ring <> 1 -> numPositionsInRing ring = 6 * (ring - 1)) /\
  (2 <= ring -> 0 < numPositionsInRing ring /\ numPositionsInRing ring mod 6 = 0) /\
  (ring < 1 -> numPositionsInRing ring <= -6).
Proof.
  unfold numPositionsInRing. destruct (Z.eqb_spec ring 1) as [->|Hne]; simpl.
  - repeat split; intros; lia.
  - repeat split; intros; try lia.
    rewrite Z.mul_comm. apply Z.mod_divide; [lia|]. by exists (ring - 1); lia.
Qed.

Lemma C6_numPositionsInRing_witness :
  numPositionsInRing 1 = 1 /\ numPositionsInRing 3 = 12 /\ numPositionsInRing 0 <= -6.
Proof.
  pose proof (C6_numPositionsInRing 1) as (H1 & _).
  pose proof (C6_numPositionsInRing 3) as (_ & H3 & _).
  pose proof (C6_numPositionsInRing 0) as (_ & _ & _ & H0).
  split; [apply H1; reflexivity|]. split; [rewrite H3; [reflexivity|lia]|].
  apply H0. lia.
Defined.

(** * Signs: no operation of the closed form yields a NaN *)

Lemma shr_m_nonneg mrs e n : 0 <= shr_m mrs -> 0 <= shr_m (shr mrs e n).1.
Proof.
  intros Hm. destruct n as [|p|p]; simpl; try done.
  rewrite iter_pos_nat, shr_iter_m by done. apply Z.div_pos; lia.
Qed.

Lemma shr_fexp_nonneg m e l : 0 <= m -> 0 <= shr_m (shr_fexp prec emax m e l).1.
Proof.
  intros Hm. unfold shr_fexp. apply shr_m_nonneg. by destruct l as [|[]].
Qed.

Lemma binary_round_aux_nonneg m e l :
  0 <= m -> nonneg_float (binary_round_aux prec emax false m e l).
Proof.
  intros Hm. rewrite binary_round_aux_finish.
  pose proof (shr_fexp_nonneg m e l Hm) as H1.
  destruct (shr_fexp prec emax m e l) as [mrs e']. simpl in H1.
  pose proof (round_nearest_even_bounds (shr_m mrs) (loc_of_shr_record mrs)) as Hr.
  unfold finish.
  pose proof (shr_fexp_nonneg (round_nearest_even (shr_m mrs) (loc_of_shr_record mrs))
    e' loc_Exact ltac:(lia)) as H2.
  destruct (shr_fexp prec emax _ e' loc_Exact) as [mrs' e'']. simpl in H2.
  destruct (shr_m mrs') as [|p|p]; try done; try lia.
  by destruct (e'' <=? emax - prec).
Qed.

Lemma binary_round_nonneg m e : nonneg_float (binary_round prec emax false m e).
Proof.
  unfold binary_round. destruct (shl_align m e _) as [mz ez].
  by apply binary_round_aux_nonneg.
Qed.

Lemma SFsqrt_nonneg x : nonneg_float x -> nonneg_float (SFsqrt prec emax x).
Proof.
  destruct x as [[]|[]| |[] m e]; simpl; try done. intros _.
  unfold SFsqrt_core_binary.
  pose proof (Z.sqrtrem_sqrt (match e - 2 * Z.min (fexp prec emax (Z.div2 (Zdigits2 (Z.pos m) + e + 1))) (Z.div2 e) with
      | 0 => Z.pos m | Z.pos _ => Z.shiftl (Z.pos m) (e - 2 * Z.min (fexp prec emax (Z.div2 (Zdigits2 (Z.pos m) + e + 1))) (Z.div2 e)) | Z.neg _ => 0 end)) as Hq.
  destruct (Z.sqrtrem _) as [q r]. simpl in Hq. subst q.
  apply binary_round_aux_nonneg, Z.sqrt_nonneg.
Qed.

Lemma SFadd_one_nonneg x : nonneg_float x -> nonneg_float (Float64.add Float64.one x).
Proof.
  destruct x as [[]|[]| |[] m e]; simpl; try done. intros _.
  unfold Float64.add, Float64.one, SFadd, cond_Zopp.
  change (Z.pos ?a + Z.pos ?b) with (Z.pos (a + b)).
  apply binary_round_nonneg.
Qed.

Lemma SFmul_half_nonneg x : nonneg_float x -> nonneg_float (Float64.mul Float64.half x).
Proof.
  destruct x as [[]|[]| |[] m e]; simpl; try done. intros _.
  by apply binary_round_aux_nonneg.
Qed.

(** For a positive argument the closed form returns an integer or
    overflows; it raises nothing else. *)
Lemma closed_form_outcome k :
  0 < k ->
  let res := x ← Float64.of_int k; root ← Float64.sqrt x;
             Float64.ceil (Float64.mul Float64.half (Float64.add Float64.one root)) in
  (exists r, res = Ok r) \/ res = Raise OverflowError.
Proof.
  intros Hk res. subst res. unfold Float64.of_int.
  destruct k as [|p|p]; try lia. unfold binary_normalize.
  pose proof (binary_round_nonneg p 0) as Hx.
  destruct (binary_round prec emax false p 0) as [[]|[]| |[] m e] eqn:Ex;
    try done; try (by right).
  - left. by eexists.
  - rewrite result_bind_Ok.
    change (Float64.sqrt (S754_finite false m e))
      with (Ok (SFsqrt prec emax (S754_finite false m e))).
    rewrite result_bind_Ok.
    pose proof (SFmul_half_nonneg _ (SFadd_one_nonneg _ (SFsqrt_nonneg _ Hx))) as Hy.
    destruct (Float64.mul _ _) as [[]|[]| |[] m' e']; try done.
    + left. by eexists.
    + by right.
    + left. by eexists.
Qed.

Lemma numRingsToHoldNumCells_outcome n :
  0 <= n ->
  (exists r, numRingsToHoldNumCells n = Ok r) \/
  numRingsToHoldNumCells n = Raise OverflowError.
Proof.
  intros Hn. unfold numRingsToHoldNumCells.
  destruct (Z.eqb_spec n 0) as [->|Hne]; [left; by eexists|].
  apply closed_form_outcome. dlia.
Qed.

(** * Rotation of one cell index *)

Lemma mod_wrap a L :
  0 <= a < 2 * L -> a mod L = if a <? L then a else a - L.
Proof.
  intros Ha. destruct (Z.ltb_spec a L).
  - apply Z.mod_small. lia.
  - symmetry. apply (Z.mod_unique a L 1). { left. lia. } lia.
Qed.

Lemma totalPositionsUpToRing_step r :
  totalPositionsUpToRing r = totalPositionsUpToRing (r - 1) + 6 * (r - 1).
Proof. unfold totalPositionsUpToRing. lia. Qed.

(** Inside the exact range, a cell of ring [r] moves by [o] edges along
    its ring, cyclically. *)
Lemma getIndexOfRotatedCell_in_ring i o r :
  2 <= r <= maxExactRings ->
  totalPositionsUpToRing (r - 1) < i <= totalPositionsUpToRing r ->
  0 <= o <= 5 ->
  getIndexOfRotatedCell i o =
  Ok (totalPositionsUpToRing (r - 1) + 1
      + (i - totalPositionsUpToRing (r - 1) - 1 + (r - 1) * o) mod (6 * (r - 1))).
Proof.
  intros Hr Hi Ho. unfold getIndexOfRotatedCell.
  replace ((o <? 0) || (5 <? o)) with false by (symmetry; apply orb_false_iff; lia).
  assert (1 <= totalPositionsUpToRing (r - 1)) by (unfold totalPositionsUpToRing; nia).
  replace (1 <? i) with true by (symmetry; apply Z.ltb_lt; lia).
  pose proof (totalPositionsUpToRing_step r) as Hstep.
  set (t := totalPositionsUpToRing (r - 1)) in *.
  destruct (Z.eqb_spec o 0) as [->|Hne].
  - rewrite Z.mul_0_r, Z.add_0_r, Z.mod_small by lia. f_equal. lia.
  - rewrite (numRingsToHoldNumCells_in_ring i r) by (done || lia).
    rewrite result_bind_Ok. cbv zeta. rewrite Hstep. f_equal.
    assert (0 <= (r - 1) * o <= 5 * (r - 1)) by nia.
    rewrite mod_wrap by lia.
    destruct (Z.ltb_spec (t + 6 * (r - 1)) (i + (r - 1) * o));
      destruct (Z.ltb_spec (i - t - 1 + (r - 1) * o) (6 * (r - 1))); lia.
Qed.

(** C3. For every cell index [>= 2] the rotated index is meant to be
    [initialIndex + e n], less [6 e] once if that exceeds [t], with [r] the
    minimal ring holding the index, [e = r - 1] and [t] the cells up to
    ring [r].  For the first cell of ring [2^25 + 1] the ring count comes
    out one short (see C1), so the index is moved along the wrong ring:
    the call returns [3377699452092423], a cell of ring [2^25], where the
    formula gives [3377699653419010]. *)
Theorem C3_rotated_index_in_wrong_ring :
  getIndexOfRotatedCell 3377699619864578 1 = Ok 3377699452092423 /\
  totalPositionsUpToRing 33554432 < 3377699619864578 <= totalPositionsUpToRing 33554433 /\
  3377699619864578 + (33554433 - 1) * 1 = 3377699653419010 /\
  3377699653419010 <= totalPositionsUpToRing 33554433 /\
  3377699452092423 <= totalPositionsUpToRing 33554432.
Proof. repeat split; by vm_compute. Qed.

(** C7. A call with a cell index [>= 1] and an orientation in [0..5] is
    meant to return normally.  When the index is too large for a double
    the conversion inside the ring count raises [OverflowError]; the two
    calls the specification lists as invalid do raise [ValueError]. *)
Theorem C7_overflow_on_huge_index :
  getIndexOfRotatedCell (2 ^ 1024) 1 = Raise OverflowError /\
  getIndexOfRotatedCell 0 1 = Raise ValueError /\
  getIndexOfRotatedCell 5 6 = Raise ValueError.
Proof. repeat split; by vm_compute. Qed.

(** * Rotation of the data of all cells *)

Lemma maxExactRings_le : maxExactRings <= maxFullRings.
Proof. by vm_compute. Qed.

Section RotationFacts.

Context {A : Type}.
Implicit Types data buffer items : list A.

Lemma slice_bound_inside len i :
  0 <= i <= Z.of_nat len -> slice_bound len i = Z.to_nat i.
Proof.
  intros Hi. unfold slice_bound.
  replace (i <? 0) with false by (symmetry; apply Z.ltb_ge; lia). f_equal. lia.
Qed.

Lemma slice_bound_beyond len i :
  Z.of_nat len <= i -> slice_bound len i = len.
Proof.
  intros Hi. unfold slice_bound.
  replace (i <? 0) with false by (symmetry; apply Z.ltb_ge; lia). lia.
Qed.

Lemma slice_bound_le len i : (slice_bound len i <= len)%nat.
Proof. unfold slice_bound. destruct (Z.ltb_spec i 0); lia. Qed.

Lemma slice_bound_mono len i i' :
  0 <= i <= i' -> (slice_bound len i <= slice_bound len i')%nat.
Proof.
  intros Hi. unfold slice_bound.
  replace (i <? 0) with false by (symmetry; apply Z.ltb_ge; lia).
  replace (i' <? 0) with false by (symmetry; apply Z.ltb_ge; lia). lia.
Qed.

Lemma length_getslice data start stop :
  length (getslice data start stop)
  = (slice_bound (length data) stop - slice_bound (length data) start)%nat.
Proof.
  unfold getslice. rewrite length_take, length_drop.
  pose proof (slice_bound_le (length data) stop). lia.
Qed.

(** ** The cyclic shift *)

Lemma length_cyclic items position : length (cyclic items position) = length items.
Proof. apply length_rotate. Qed.

Lemma cyclic_Permutation items position : cyclic items position ≡ₚ items.
Proof.
  unfold cyclic, rotate. set (k := (_ `mod` _)%nat).
  rewrite <-(take_drop k items) at 3. apply Permutation_app_comm.
Qed.

Lemma lookup_cyclic items position q :
  (q < length items)%nat ->
  cyclic items position !! q =
  items !! Z.to_nat ((Z.of_nat q + position) mod Z.of_nat (length items)).
Proof.
  intros Hq. unfold cyclic. rewrite lookup_rotate_r by done. f_equal.
  unfold rotate_nat_add. f_equal.
  rewrite Z2Nat.id by (apply Z.mod_pos_bound; lia).
  rewrite Zplus_mod_idemp_l. f_equal. lia.
Qed.

Lemma cyclic_full_turn items m :
  cyclic items (m * Z.of_nat (length items)) = items.
Proof.
  unfold cyclic. destruct items as [|x items];
    [unfold rotate; by rewrite drop_nil, take_nil|].
  rewrite Z.mod_mul by (simpl; lia). unfold rotate.
  by rewrite Nat.Div0.mod_0_l, drop_0, take_0, app_nil_r.
Qed.

(** ** [pivot] within the length, and beyond *)

Section Pivot.

Variable beyond : list A -> Z -> list A.

Lemma pivot_cyclic items position :
  - Z.of_nat (length items) <= position <= Z.of_nat (length items) ->
  pivot beyond items position = cyclic items position.
Proof.
  intros Hp. unfold pivot, cyclic, rotate.
  replace ((- Z.of_nat (length items) <=? position) && (position <=? Z.of_nat (length items)))
    with true by (symmetry; apply andb_true_iff; split; apply Z.leb_le; lia).
  cbv zeta.
  destruct (decide (length items = 0%nat)) as [Hnil|Hne].
  { destruct items; [|done]. by rewrite !drop_nil, !take_nil. }
  set (n := Z.of_nat (length items)) in *.
  pose proof (Z.mod_pos_bound position n ltac:(lia)) as Hm.
  rewrite Nat.mod_small by lia.
  destruct (Z.eq_dec position n) as [->|Hlt].
  - replace (n <? 0) with false by (symmetry; apply Z.ltb_ge; lia).
    rewrite Z.mod_same, drop_0, take_0 by lia.
    rewrite drop_ge, take_ge by lia. by rewrite app_nil_r.
  - replace (Z.to_nat (if position <? 0 then position + n else position))
      with (Z.to_nat (position mod n)); [done|].
    f_equal. destruct (Z.ltb_spec position 0).
    + symmetry. apply (Z.mod_unique position n (-1)); lia.
    + symmetry. apply (Z.mod_unique position n 0); lia.
Qed.


Lemma pivot_Permutation items position :
  (forall items p, beyond items p ≡ₚ items) -> pivot beyond items position ≡ₚ items.
Proof.
  intros Hb. unfold pivot. destruct (_ && _); [|apply Hb]. cbv zeta.
  set (k := Z.to_nat _). rewrite <-(take_drop k items) at 3. apply Permutation_app_comm.
Qed.

(** ** The rings of a full hexagon *)

Lemma length_ringData data ring :
  2 <= ring -> totalPositionsUpToRing ring <= Z.of_nat (length data) ->
  length (ringData data ring) = Z.to_nat (6 * (ring - 1)).
Proof.
  intros Hr Hlen. unfold ringData. rewrite length_take, length_drop.
  rewrite totalPositionsUpToRing_step in Hlen.
  assert (0 <= totalPositionsUpToRing (ring - 1)) by (unfold totalPositionsUpToRing; nia).
  lia.
Qed.

Lemma getslice_ring data ring :
  2 <= ring -> totalPositionsUpToRing ring <= Z.of_nat (length data) ->
  getslice data (totalPositionsUpToRing (ring - 1))
    (totalPositionsUpToRing (ring - 1) + numPositionsInRing ring)
  = ringData data ring.
Proof.
  intros Hr Hlen. unfold getslice, ringData, numPositionsInRing.
  replace (negb (ring =? 1)) with true
    by (symmetry; apply negb_true_iff, Z.eqb_neq; lia).
  rewrite totalPositionsUpToRing_step in Hlen.
  assert (0 <= totalPositionsUpToRing (ring - 1)) by (unfold totalPositionsUpToRing; nia).
  rewrite !slice_bound_inside by lia. f_equal. lia.
Qed.

(** The offsets of up to six rotations are within the length of a ring. *)
Lemma pivot_ring_cyclic data nRotations ring :
  2 <= ring -> totalPositionsUpToRing ring <= Z.of_nat (length data) ->
  -6 <= nRotations <= 6 ->
  pivot beyond (ringData data ring) (- (nRotations * (ring - 1)))
  = cyclic (ringData data ring) (- (nRotations * (ring - 1))).
Proof.
  intros Hr Hlen Hn. apply pivot_cyclic. rewrite length_ringData by done. nia.
Qed.


Variable conv : A -> A.

Lemma rotateRing_full data nRotations buffer ring :
  2 <= ring -> totalPositionsUpToRing ring <= Z.of_nat (length data) ->
  length buffer = length data ->
  pivot beyond (ringData data ring) (- (nRotations * (ring - 1)))
  = cyclic (ringData data ring) (- (nRotations * (ring - 1))) ->
  rotateRing beyond conv data nRotations (buffer, totalPositionsUpToRing (ring - 1)) ring
  = Ok (take (Z.to_nat (totalPositionsUpToRing (ring - 1))) buffer
        ++ (conv <$> cyclic (ringData data ring) (- (nRotations * (ring - 1))))
        ++ drop (Z.to_nat (totalPositionsUpToRing ring)) buffer,
        totalPositionsUpToRing ring).
Proof.
  intros Hr Hlen Hbuf Hpiv. unfold rotateRing.
  rewrite getslice_ring by done.
  assert (Hn : numPositionsInRing ring = 6 * (ring - 1)).
  { unfold numPositionsInRing.
    replace (negb (ring =? 1)) with true
      by (symmetry; apply negb_true_iff, Z.eqb_neq; lia). lia. }
  rewrite Hn. replace (6 * (ring - 1) / 6) with (ring - 1) by dlia.
  rewrite Hpiv.
  rewrite <-totalPositionsUpToRing_step.
  pose proof (totalPositionsUpToRing_step ring) as Hstep.
  assert (0 <= totalPositionsUpToRing (ring - 1)) by (unfold totalPositionsUpToRing; nia).
  unfold setslice. rewrite !slice_bound_inside by lia.
  rewrite bool_decide_eq_true_2
    by (rewrite length_fmap, length_cyclic, length_ringData by done; lia).
  rewrite result_bind_Ok. do 5 f_equal. lia.
Qed.

Lemma rotateRings_cons data nRotations (state : list A * Z) ring rings :
  rotateRings beyond conv data nRotations state (ring :: rings)
  = rotateRing beyond conv data nRotations state ring
    ≫= fun state => rotateRings beyond conv data nRotations state rings.
Proof. reflexivity. Qed.

Lemma rotateRings_full data nRotations (count : nat) : forall buffer ring,
  1 <= ring ->
  totalPositionsUpToRing (ring + Z.of_nat count) <= Z.of_nat (length data) ->
  length buffer = length data ->
  (forall r, ring < r <= ring + Z.of_nat count ->
     pivot beyond (ringData data r) (- (nRotations * (r - 1)))
     = cyclic (ringData data r) (- (nRotations * (r - 1)))) ->
  rotateRings beyond conv data nRotations (buffer, totalPositionsUpToRing ring)
    (seqZ (ring + 1) (Z.of_nat count))
  = Ok (take (Z.to_nat (totalPositionsUpToRing ring)) buffer
        ++ (conv <$> rotatedRings data nRotations (ring + 1) count)
        ++ drop (Z.to_nat (totalPositionsUpToRing (ring + Z.of_nat count))) buffer,
        totalPositionsUpToRing (ring + Z.of_nat count)).
Proof.
  induction count as [|count IH]; intros buffer ring Hr Hlen Hbuf Hpiv.
  - rewrite seqZ_nil by lia. simpl. rewrite Z.add_0_r, take_drop. done.
  - rewrite seqZ_cons by lia. rewrite rotateRings_cons.
    replace (Z.pred (Z.of_nat (S count))) with (Z.of_nat count) by lia.
    replace (Z.succ (ring + 1)) with (ring + 1 + 1) by lia.
    replace (ring + Z.of_nat (S count)) with (ring + 1 + Z.of_nat count) in * by lia.
    assert (Hmono : totalPositionsUpToRing (ring + 1)
                    <= totalPositionsUpToRing (ring + 1 + Z.of_nat count))
      by (apply totalPositionsUpToRing_mono; lia).
    pose proof (rotateRing_full data nRotations buffer (ring + 1)) as Hstep.
    replace (ring + 1 - 1) with ring in Hstep by lia.
    rewrite Hstep; [|lia|lia|done|].
    2:{ pose proof (Hpiv (ring + 1) ltac:(lia)) as Hp1.
        by replace (ring + 1 - 1) with ring in Hp1 by lia. }
    rewrite result_bind_Ok.
    set (chunk := cyclic _ _).
    assert (Hchunk : length chunk = Z.to_nat (6 * ring)).
    { unfold chunk. rewrite length_cyclic, length_ringData by lia. f_equal. lia. }
    pose proof (totalPositionsUpToRing_step (ring + 1)) as Ht.
    replace (ring + 1 - 1) with ring in Ht by lia.
    assert (0 <= totalPositionsUpToRing ring) by (unfold totalPositionsUpToRing; nia).
    set (buffer1 := take _ buffer ++ (conv <$> chunk) ++ drop _ buffer).
    assert (Hlen1 : length buffer1 = length data).
    { unfold buffer1. rewrite !length_app, length_fmap, length_take, length_drop. lia. }
    rewrite IH; [|lia|lia|done|intros r Hr'; apply Hpiv; lia]. f_equal. f_equal.
    assert (Htake : take (Z.to_nat (totalPositionsUpToRing (ring + 1))) buffer1
                    = take (Z.to_nat (totalPositionsUpToRing ring)) buffer ++ (conv <$> chunk)).
    { unfold buffer1. rewrite app_assoc. apply take_app_length'.
      rewrite length_app, length_fmap, length_take. lia. }
    assert (Hdrop : drop (Z.to_nat (totalPositionsUpToRing (ring + 1 + Z.of_nat count))) buffer1
                    = drop (Z.to_nat (totalPositionsUpToRing (ring + 1 + Z.of_nat count))) buffer).
    { unfold buffer1.
      rewrite app_assoc, drop_app_ge by (rewrite length_app, length_fmap, length_take; lia).
      rewrite drop_drop. f_equal. rewrite length_app, length_fmap, length_take. lia. }
    rewrite Htake, Hdrop. simpl rotatedRings.
    replace (ring + 1 - 1) with ring by lia. fold chunk.
    by rewrite fmap_app, <-!app_assoc.
Qed.

Variable uninit : nat -> A.

(** A full hexagon whose rings [pivot] shifts cyclically. *)
Lemma rotateCells_full data nRotations R :
  1 <= R <= maxFullRings ->
  Z.of_nat (length data) = totalPositionsUpToRing R ->
  (forall r, 2 <= r <= R ->
     pivot beyond (ringData data r) (- (nRotations * (r - 1)))
     = cyclic (ringData data r) (- (nRotations * (r - 1)))) ->
  rotateCells uninit beyond conv data (totalPositionsUpToRing R) nRotations
  = Ok (conv <$> take 1 data ++ rotatedRings data nRotations 2 (Z.to_nat (R - 1))).
Proof.
  intros HR Hlen Hpiv. unfold rotateCells.
  replace (Z.of_nat (length data) =? totalPositionsUpToRing R) with true
    by (symmetry; by apply Z.eqb_eq).
  simpl negb. cbv iota.
  assert (1 <= totalPositionsUpToRing R) by (unfold totalPositionsUpToRing; nia).
  destruct data as [|center rest] eqn:Hdata; [simpl in Hlen; lia|].
  rewrite <-Hdata in *. cbv zeta.
  rewrite numRingsToHoldNumCells_full_hexagon, result_bind_Ok by done.
  set (buffer := <[0%nat:=conv center]> (empty_like uninit data)).
  assert (Hbuf : length buffer = length data).
  { unfold buffer, empty_like. by rewrite length_insert, length_fmap, length_seq. }
  pose proof (rotateRings_full data nRotations (Z.to_nat (R - 1)) buffer 1) as Hloop.
  change (totalPositionsUpToRing 1) with 1 in Hloop.
  replace (1 + Z.of_nat (Z.to_nat (R - 1))) with R in Hloop by lia.
  replace (Z.of_nat (Z.to_nat (R - 1))) with (R + 1 - 2) in Hloop by lia.
  change (1 + 1) with 2 in Hloop.
  rewrite Hloop; [|lia|lia|done|intros r Hr; apply Hpiv; lia].
  rewrite result_bind_Ok. simpl fst. f_equal.
  rewrite (drop_ge buffer) by lia. rewrite app_nil_r, fmap_app. f_equal.
  unfold buffer. rewrite Hdata. reflexivity.
Qed.

(** ** Any length, with a [pivot] that reorders *)

Lemma rotateRing_perm data nRotations buffer pos ring pre :
  (forall items p, beyond items p ≡ₚ items) ->
  2 <= ring -> 1 <= pos -> (0 < length data)%nat ->
  length buffer = length data ->
  take (slice_bound (length data) pos) buffer = conv <$> pre ->
  pre ≡ₚ take (slice_bound (length data) pos) data ->
  exists buffer' pre',
    rotateRing beyond conv data nRotations (buffer, pos) ring
    = Ok (buffer', pos + numPositionsInRing ring) /\
    length buffer' = length data /\
    take (slice_bound (length data) (pos + numPositionsInRing ring)) buffer'
    = conv <$> pre' /\
    pre' ≡ₚ take (slice_bound (length data) (pos + numPositionsInRing ring)) data /\
    buffer' !! 0%nat = buffer !! 0%nat.
Proof.
  intros Hb Hr Hpos Hne Hbuf Htake Hpre. unfold rotateRing.
  assert (Hn : 0 <= numPositionsInRing ring).
  { unfold numPositionsInRing. destruct (negb _); lia. }
  set (stop := pos + numPositionsInRing ring).
  set (chunk := pivot beyond (getslice data pos stop) _).
  assert (Hchunk : chunk ≡ₚ getslice data pos stop) by (by apply pivot_Permutation).
  pose proof (slice_bound_mono (length data) pos stop ltac:(lia)) as Hmono.
  pose proof (slice_bound_le (length data) stop) as Hle.
  assert (Hlo : (1 <= slice_bound (length data) pos)%nat).
  { unfold slice_bound. replace (pos <? 0) with false by (symmetry; apply Z.ltb_ge; lia). lia. }
  set (lo := slice_bound (length data) pos) in *.
  set (hi := slice_bound (length data) stop) in *.
  assert (Hlc : length chunk = (hi - lo)%nat).
  { rewrite (Permutation_length Hchunk). apply length_getslice. }
  unfold setslice. rewrite Hbuf. fold lo hi.
  rewrite bool_decide_eq_true_2 by (by rewrite length_fmap).
  rewrite result_bind_Ok.
  exists (take lo buffer ++ (conv <$> chunk) ++ drop (lo + (hi - lo)) buffer), (pre ++ chunk).
  split; [done|]. split.
  { rewrite !length_app, length_fmap, length_take, length_drop. lia. }
  split.
  { rewrite app_assoc, fmap_app, <-Htake. apply take_app_length'.
    rewrite length_app, length_fmap, length_take. lia. }
  split.
  { rewrite Hpre, Hchunk. unfold getslice. fold lo hi.
    rewrite take_take_drop. by replace (lo + (hi - lo))%nat with hi by lia. }
  rewrite lookup_app_l by (rewrite length_take; lia).
  rewrite lookup_take_lt by lia. done.
Qed.

Lemma rotateRings_perm data nRotations (count : nat) : forall buffer ring pre,
  (forall items p, beyond items p ≡ₚ items) ->
  1 <= ring -> (0 < length data)%nat ->
  length buffer = length data ->
  take (slice_bound (length data) (totalPositionsUpToRing ring)) buffer = conv <$> pre ->
  pre ≡ₚ take (slice_bound (length data) (totalPositionsUpToRing ring)) data ->
  exists buffer' pre',
    rotateRings beyond conv data nRotations (buffer, totalPositionsUpToRing ring)
      (seqZ (ring + 1) (Z.of_nat count))
    = Ok (buffer', totalPositionsUpToRing (ring + Z.of_nat count)) /\
    length buffer' = length data /\
    take (slice_bound (length data) (totalPositionsUpToRing (ring + Z.of_nat count))) buffer'
    = conv <$> pre' /\
    pre' ≡ₚ take (slice_bound (length data) (totalPositionsUpToRing (ring + Z.of_nat count))) data /\
    buffer' !! 0%nat = buffer !! 0%nat.
Proof.
  induction count as [|count IH]; intros buffer ring pre Hb Hr Hne Hbuf Htake Hpre.
  - rewrite seqZ_nil by lia. simpl. rewrite Z.add_0_r. by exists buffer, pre.
  - rewrite seqZ_cons by lia. rewrite rotateRings_cons.
    replace (Z.pred (Z.of_nat (S count))) with (Z.of_nat count) by lia.
    replace (Z.succ (ring + 1)) with (ring + 1 + 1) by lia.
    replace (ring + Z.of_nat (S count)) with (ring + 1 + Z.of_nat count) by lia.
    assert (1 <= totalPositionsUpToRing ring).
    { change 1 with (totalPositionsUpToRing 1) at 1.
      apply totalPositionsUpToRing_mono. lia. }
    destruct (rotateRing_perm data nRotations buffer (totalPositionsUpToRing ring)
                (ring + 1) pre) as (buffer1 & pre1 & -> & Hbuf1 & Htake1 & Hpre1 & Hc1);
      [done|lia|lia|done|done|done|done|].
    assert (Hnext : totalPositionsUpToRing ring + numPositionsInRing (ring + 1)
                    = totalPositionsUpToRing (ring + 1)).
    { unfold numPositionsInRing.
      replace (negb (ring + 1 =? 1)) with true
        by (symmetry; apply negb_true_iff, Z.eqb_neq; lia).
      rewrite (totalPositionsUpToRing_step (ring + 1)).
      replace (ring + 1 - 1) with ring by lia. lia. }
    rewrite Hnext in *. rewrite result_bind_Ok.
    destruct (IH buffer1 (ring + 1) pre1) as (buffer' & pre' & -> & Hbuf' & Htake' & Hpre' & Hc');
      [done|lia|done|done|done|done|].
    exists buffer', pre'. split; [done|]. split; [done|]. split; [done|]. split; [done|].
    by rewrite Hc'.
Qed.

Lemma rotateCells_perm data nRotations R :
  (forall items p, beyond items p ≡ₚ items) ->
  numRingsToHoldNumCells (Z.of_nat (length data)) = Ok R -> 1 <= R ->
  1 <= Z.of_nat (length data) <= totalPositionsUpToRing R ->
  exists out,
    rotateCells uninit beyond conv data (Z.of_nat (length data)) nRotations = Ok out /\
    out ≡ₚ conv <$> data /\ out !! 0%nat = (conv <$> data) !! 0%nat.
Proof.
  intros Hb HR HR1 Hlen. unfold rotateCells. rewrite Z.eqb_refl. simpl negb. cbv iota.
  destruct data as [|center rest] eqn:Hdata; [simpl in Hlen; lia|].
  rewrite <-Hdata in *. cbv zeta. rewrite HR, result_bind_Ok.
  set (buffer := <[0%nat:=conv center]> (empty_like uninit data)).
  assert (Hbuf : length buffer = length data).
  { unfold buffer, empty_like. by rewrite length_insert, length_fmap, length_seq. }
  assert (H1 : slice_bound (length data) 1 = 1%nat).
  { rewrite slice_bound_inside by lia. done. }
  destruct (rotateRings_perm data nRotations (Z.to_nat (R - 1)) buffer 1 [center])
    as (buffer' & pre' & Hloop & Hbuf' & Htake' & Hpre' & Hc'); [done|lia|lia|done| | |].
  { change (totalPositionsUpToRing 1) with 1. rewrite H1. unfold buffer.
    rewrite Hdata. reflexivity. }
  { change (totalPositionsUpToRing 1) with 1. rewrite H1. by rewrite Hdata. }
  change (totalPositionsUpToRing 1) with 1 in Hloop. change (1 + 1) with 2 in Hloop.
  replace (1 + Z.of_nat (Z.to_nat (R - 1))) with R in * by lia.
  replace (Z.of_nat (Z.to_nat (R - 1))) with (R + 1 - 2) in Hloop by lia.
  rewrite Hloop, result_bind_Ok. simpl fst.
  rewrite slice_bound_beyond in Htake', Hpre' by lia.
  rewrite take_ge in Htake', Hpre' by lia.
  exists buffer'. split; [done|]. split.
  - rewrite Htake'. by apply fmap_Permutation.
  - rewrite Hc'. unfold buffer. rewrite Hdata. reflexivity.
Qed.

End Pivot.

(** ** The cyclically shifted rings *)

Lemma length_rotatedRings data nRotations (count : nat) : forall ring,
  1 <= ring ->
  totalPositionsUpToRing (ring + Z.of_nat count) <= Z.of_nat (length data) ->
  length (rotatedRings data nRotations (ring + 1) count)
  = Z.to_nat (totalPositionsUpToRing (ring + Z.of_nat count) - totalPositionsUpToRing ring).
Proof.
  induction count as [|count IH]; intros ring Hr Hlen.
  - simpl. rewrite Z.add_0_r. lia.
  - replace (ring + Z.of_nat (S count)) with (ring + 1 + Z.of_nat count) in * by lia.
    assert (totalPositionsUpToRing (ring + 1)
            <= totalPositionsUpToRing (ring + 1 + Z.of_nat count))
      by (apply totalPositionsUpToRing_mono; lia).
    simpl. rewrite length_app, length_cyclic, length_ringData, IH by lia.
    pose proof (totalPositionsUpToRing_step (ring + 1)).
    replace (ring + 1 - 1) with ring in * by lia. lia.
Qed.

(** The rotated rings hold the data of these rings, each ring permuted. *)
Lemma rotatedRings_Permutation data nRotations (count : nat) : forall ring,
  1 <= ring ->
  totalPositionsUpToRing (ring + Z.of_nat count) <= Z.of_nat (length data) ->
  rotatedRings data nRotations (ring + 1) count
  ≡ₚ take (Z.to_nat (totalPositionsUpToRing (ring + Z.of_nat count)
                     - totalPositionsUpToRing ring))
       (drop (Z.to_nat (totalPositionsUpToRing ring)) data).
Proof.
  induction count as [|count IH]; intros ring Hr Hlen.
  - simpl. rewrite Z.add_0_r, Z.sub_diag. done.
  - replace (ring + Z.of_nat (S count)) with (ring + 1 + Z.of_nat count) in * by lia.
    assert (totalPositionsUpToRing (ring + 1)
            <= totalPositionsUpToRing (ring + 1 + Z.of_nat count))
      by (apply totalPositionsUpToRing_mono; lia).
    pose proof (totalPositionsUpToRing_step (ring + 1)) as Hstep.
    replace (ring + 1 - 1) with ring in Hstep by lia.
    assert (0 <= totalPositionsUpToRing ring) by (unfold totalPositionsUpToRing; nia).
    simpl. rewrite cyclic_Permutation, IH by lia. unfold ringData.
    replace (ring + 1 - 1) with ring by lia.
    replace (Z.to_nat (totalPositionsUpToRing (ring + 1 + Z.of_nat count)
                       - totalPositionsUpToRing ring))
      with (Z.to_nat (6 * ring)
            + Z.to_nat (totalPositionsUpToRing (ring + 1 + Z.of_nat count)
                        - totalPositionsUpToRing (ring + 1)))%nat by lia.
    assert (Hs : (Z.to_nat (totalPositionsUpToRing ring) + Z.to_nat (6 * ring))%nat
                 = Z.to_nat (totalPositionsUpToRing (ring + 1))) by lia.
    by rewrite <-take_take_drop, drop_drop, Hs.
Qed.

(** A number of rotations that is a multiple of six leaves every ring as it
    is. *)
Lemma rotatedRings_full_turn data m (count : nat) : forall ring,
  1 <= ring ->
  totalPositionsUpToRing (ring + Z.of_nat count) <= Z.of_nat (length data) ->
  rotatedRings data (6 * m) (ring + 1) count
  = take (Z.to_nat (totalPositionsUpToRing (ring + Z.of_nat count)
                    - totalPositionsUpToRing ring))
      (drop (Z.to_nat (totalPositionsUpToRing ring)) data).
Proof.
  induction count as [|count IH]; intros ring Hr Hlen.
  - simpl. rewrite Z.add_0_r, Z.sub_diag. done.
  - replace (ring + Z.of_nat (S count)) with (ring + 1 + Z.of_nat count) in * by lia.
    assert (totalPositionsUpToRing (ring + 1)
            <= totalPositionsUpToRing (ring + 1 + Z.of_nat count))
      by (apply totalPositionsUpToRing_mono; lia).
    pose proof (totalPositionsUpToRing_step (ring + 1)) as Hstep.
    replace (ring + 1 - 1) with ring in Hstep by lia.
    assert (0 <= totalPositionsUpToRing ring) by (unfold totalPositionsUpToRing; nia).
    simpl. rewrite IH by lia.
    replace (- (6 * m * (ring + 1 - 1)))
      with (- m * Z.of_nat (length (ringData data (ring + 1))))
      by (rewrite length_ringData by lia; lia).
    rewrite cyclic_full_turn. unfold ringData.
    replace (ring + 1 - 1) with ring by lia.
    replace (Z.to_nat (totalPositionsUpToRing (ring + 1 + Z.of_nat count)
                       - totalPositionsUpToRing ring))
      with (Z.to_nat (6 * ring)
            + Z.to_nat (totalPositionsUpToRing (ring + 1 + Z.of_nat count)
                        - totalPositionsUpToRing (ring + 1)))%nat by lia.
    assert (Hs : (Z.to_nat (totalPositionsUpToRing ring) + Z.to_nat (6 * ring))%nat
                 = Z.to_nat (totalPositionsUpToRing (ring + 1))) by lia.
    by rewrite <-take_take_drop, drop_drop, Hs.
Qed.

(** Where the rotated rings take each value from. *)
Lemma lookup_rotatedRings data nRotations (count : nat) : forall ring0 ring q,
  1 <= ring0 -> ring0 < ring <= ring0 + Z.of_nat count ->
  totalPositionsUpToRing (ring0 + Z.of_nat count) <= Z.of_nat (length data) ->
  0 <= q < 6 * (ring - 1) ->
  rotatedRings data nRotations (ring0 + 1) count
    !! Z.to_nat (totalPositionsUpToRing (ring - 1) - totalPositionsUpToRing ring0 + q)
  = data !! Z.to_nat (totalPositionsUpToRing (ring - 1)
                      + (q - nRotations * (ring - 1)) mod (6 * (ring - 1))).
Proof.
  induction count as [|count IH]; intros ring0 ring q Hr0 Hr Hlen Hq; [lia|].
  replace (ring0 + Z.of_nat (S count)) with (ring0 + 1 + Z.of_nat count) in * by lia.
  assert (totalPositionsUpToRing (ring0 + 1)
          <= totalPositionsUpToRing (ring0 + 1 + Z.of_nat count))
    by (apply totalPositionsUpToRing_mono; lia).
  pose proof (totalPositionsUpToRing_step (ring0 + 1)) as Hstep.
  replace (ring0 + 1 - 1) with ring0 in Hstep by lia.
  assert (0 <= totalPositionsUpToRing ring0) by (unfold totalPositionsUpToRing; nia).
  simpl rotatedRings.
  assert (Hchunk : length (cyclic (ringData data (ring0 + 1)) (- (nRotations * (ring0 + 1 - 1))))
                   = Z.to_nat (6 * ring0)).
  { rewrite length_cyclic, length_ringData by lia. f_equal. lia. }
  destruct (Z.eq_dec ring (ring0 + 1)) as [->|Hne].
  - replace (ring0 + 1 - 1) with ring0 in * by lia.
    rewrite Z.sub_diag, Z.add_0_l, lookup_app_l by lia.
    rewrite lookup_cyclic by (rewrite length_ringData by lia; lia).
    rewrite length_ringData, !Z2Nat.id by lia.
    replace (ring0 + 1 - 1) with ring0 by lia.
    replace (q + - (nRotations * ring0)) with (q - nRotations * ring0) by lia.
    pose proof (Z.mod_pos_bound (q - nRotations * ring0) (6 * ring0) ltac:(lia)).
    unfold ringData. replace (ring0 + 1 - 1) with ring0 by lia.
    rewrite lookup_take_lt, lookup_drop by lia. f_equal. lia.
  - assert (totalPositionsUpToRing (ring0 + 1) <= totalPositionsUpToRing (ring - 1))
      by (apply totalPositionsUpToRing_mono; lia).
    rewrite lookup_app_r by lia. rewrite Hchunk.
    rewrite <-(IH (ring0 + 1) ring q) by lia. f_equal. lia.
Qed.

Lemma rotatedRings_all data nRotations R :
  1 <= R -> Z.of_nat (length data) = totalPositionsUpToRing R ->
  take 1 data ++ rotatedRings data nRotations 2 (Z.to_nat (R - 1)) ≡ₚ data.
Proof.
  intros HR Hlen.
  pose proof (rotatedRings_Permutation data nRotations (Z.to_nat (R - 1)) 1) as Hperm.
  replace (1 + Z.of_nat (Z.to_nat (R - 1))) with R in Hperm by lia.
  change (1 + 1) with 2 in Hperm. change (totalPositionsUpToRing 1) with 1 in Hperm.
  rewrite Hperm by lia. rewrite (take_ge (drop _ _)) by (rewrite length_drop; lia).
  change (Z.to_nat 1) with 1%nat. by rewrite take_drop.
Qed.

Lemma rotated_full_turn data m R :
  1 <= R -> Z.of_nat (length data) = totalPositionsUpToRing R ->
  take 1 data ++ rotatedRings data (6 * m) 2 (Z.to_nat (R - 1)) = data.
Proof.
  intros HR Hlen.
  pose proof (rotatedRings_full_turn data m (Z.to_nat (R - 1)) 1) as Hid.
  replace (1 + Z.of_nat (Z.to_nat (R - 1))) with R in Hid by lia.
  change (1 + 1) with 2 in Hid. change (totalPositionsUpToRing 1) with 1 in Hid.
  rewrite Hid by lia. rewrite (take_ge (drop _ _)) by (rewrite length_drop; lia).
  change (Z.to_nat 1) with 1%nat. by rewrite take_drop.
Qed.

(** A conversion that changes no item of a list changes no list of them. *)
Lemma fmap_unchanged (conv : A -> A) items :
  (forall x, x ∈ items -> conv x = x) -> conv <$> items = items.
Proof.
  induction items as [|x items IH]; intros Hid; [done|].
  rewrite fmap_cons, Hid, IH; [done| |left].
  intros y Hy. apply Hid. by right.
Qed.

(** What [rotateHexCellData] does with a list and with an array. *)
Lemma rotateHexCellData_list uninit beyond cast data cells nRotations conv :
  data <> [] -> cast data = Some conv ->
  rotateHexCellData uninit beyond cast (PyList data) cells nRotations
  = out ← rotateCells uninit beyond conv data cells nRotations; Ok (PyList out).
Proof. intros Hne Hcast. unfold rotateHexCellData, asarray. destruct data; [done|]. by rewrite Hcast. Qed.

End RotationFacts.

(** * Rotation of the data: the statements of the specification *)

Lemma rotate_back p e n :
  0 < e -> 0 <= p < 6 * e ->
  ((p + e * (n mod 6)) mod (6 * e) - n * e) mod (6 * e) = p.
Proof.
  intros He Hp. rewrite Zminus_mod_idemp_l.
  replace (p + e * (n mod 6) - n * e) with (p + - (n / 6) * (6 * e)).
  - rewrite Z.mod_add by lia. apply Z.mod_small. lia.
  - pose proof (Z.div_mod n 6 ltac:(lia)) as Hn.
    rewrite Hn at 3. ring.
Qed.

Lemma full_hexagon_nonempty {A} (data : list A) R :
  1 <= R -> Z.of_nat (length data) = totalPositionsUpToRing R -> data <> [].
Proof.
  intros HR Hlen ->. simpl in Hlen. unfold totalPositionsUpToRing in Hlen. nia.
Qed.

(** C9. A list comes back through a numpy array: a list that mixes an int
    with strs comes back as strs, and the int [0] of the data is not
    among the items of the result. *)
Lemma C9_coerced_list_counterexample :
  exists out,
    rotateHexCellData (fun _ => i64 0) beyond_unchanged np_cast
      (PyList [i64 0; PyStr "a"; PyStr "b"; PyStr "c"; PyStr "d"; PyStr "e"; PyStr "f"])
      7 1
    = Ok (PyList out) /\
    out = [PyStr "0"; PyStr "f"; PyStr "a"; PyStr "b"; PyStr "c"; PyStr "d"; PyStr "e"] /\
    ~ out ≡ₚ [i64 0; PyStr "a"; PyStr "b"; PyStr "c"; PyStr "d"; PyStr "e"; PyStr "f"].
Proof.
  eexists. split; [by vm_compute|]. split; [done|].
  intros Hperm.
  assert (Hin : i64 0 ∈ [PyStr "0"; PyStr "f"; PyStr "a"; PyStr "b";
                               PyStr "c"; PyStr "d"; PyStr "e"])
    by (rewrite Hperm; left).
  repeat (apply elem_of_cons in Hin as [Hin|Hin]; [discriminate|]).
  by apply elem_of_nil in Hin.
Qed.

(** C9, as the code has it: for a full hexagon of [R] rings (up to
    [2^52]; see C10) given as a list from which numpy builds an array, the
    rotated list is a permutation of the items as the array holds them,
    [conv <$> data], of the same length, whatever the buffer held before;
    it is a permutation of the data when the conversion changes no item.
    This holds for up to six rotations either way, where the offsets are
    within the rings, and for any number of rotations if [pivot] returns a
    reordering of its items also beyond their length. *)
Theorem C9_rotation_is_a_permutation {A} (uninit : nat -> A)
    (beyond : list A -> Z -> list A) (cast : list A -> option (A -> A))
    (R : Z) (data : list A) (nRotations : Z) (conv : A -> A) :
  1 <= R <= maxFullRings ->
  Z.of_nat (length data) = totalPositionsUpToRing R ->
  -6 <= nRotations <= 6 \/ (forall items p, beyond items p ≡ₚ items) ->
  cast data = Some conv ->
  exists out,
    rotateHexCellData uninit beyond cast (PyList data) (totalPositionsUpToRing R) nRotations
    = Ok (PyList out) /\
    length out = length data /\ out ≡ₚ conv <$> data /\
    ((forall x, x ∈ data -> conv x = x) -> out ≡ₚ data).
Proof.
  intros HR Hlen Hn Hcast.
  pose proof (full_hexagon_nonempty data R ltac:(lia) Hlen) as Hne.
  rewrite (rotateHexCellData_list _ _ _ _ _ _ conv) by done.
  assert (Hout : exists out,
    rotateCells uninit beyond conv data (totalPositionsUpToRing R) nRotations = Ok out /\
    out ≡ₚ conv <$> data).
  { destruct Hn as [Hn|Hb].
    - eexists. split.
      + apply rotateCells_full; [done|done|].
        intros r Hr. apply pivot_ring_cyclic; [lia| |done].
        rewrite Hlen. apply totalPositionsUpToRing_mono. lia.
      + apply fmap_Permutation. apply rotatedRings_all; [lia|done].
    - rewrite <-Hlen.
      destruct (rotateCells_perm beyond conv uninit data nRotations R)
        as (out & Hout & Hperm & _); [done| |lia| |by exists out].
      + rewrite Hlen. by apply numRingsToHoldNumCells_full_hexagon.
      + rewrite Hlen. unfold totalPositionsUpToRing. nia. }
  destruct Hout as (out & -> & Hperm). exists out. rewrite result_bind_Ok.
  split; [done|]. split; [by rewrite (Permutation_length Hperm), length_fmap|].
  split; [done|]. intros Hid. by rewrite Hperm, fmap_unchanged.
Qed.

Lemma C9_rotation_is_a_permutation_witness :
  exists out,
    rotateHexCellData (fun _ => i64 0) beyond_unchanged np_cast
      (PyList [i64 10; i64 11; i64 12; i64 13; i64 14; i64 15; i64 16])
      (totalPositionsUpToRing 2) 1
    = Ok (PyList out) /\
    length out
    = length [i64 10; i64 11; i64 12; i64 13; i64 14; i64 15; i64 16] /\
    out ≡ₚ id <$> [i64 10; i64 11; i64 12; i64 13; i64 14; i64 15; i64 16] /\
    ((forall x,
        x ∈ [i64 10; i64 11; i64 12; i64 13; i64 14; i64 15; i64 16] ->
        id x = x) ->
     out ≡ₚ [i64 10; i64 11; i64 12; i64 13; i64 14; i64 15; i64 16]).
Proof.
  apply (C9_rotation_is_a_permutation (fun _ => i64 0) beyond_unchanged np_cast 2
           [i64 10; i64 11; i64 12; i64 13; i64 14; i64 15; i64 16]
           1 id).
  - unfold maxFullRings. lia.
  - reflexivity.
  - left. lia.
  - reflexivity.
Defined.




(** C2. The cell numbers of [getIndexOfRotatedCell] start at 1 for the
    centre, the positions of the data at 0: taken as a position, the
    rotated index of position 1 is 1, but the value of position 1 moves to
    position 2. *)
Lemma C2_zero_based_counterexample :
  exists out,
    rotateHexCellData (fun _ => i64 0) beyond_unchanged np_cast
      (PyList [i64 10; i64 11; i64 12; i64 13; i64 14; i64 15; i64 16])
      7 1
    = Ok (PyList out) /\
    getIndexOfRotatedCell 1 (1 mod 6) = Ok 1 /\
    out !! 1%nat = Some (i64 16) /\
    [i64 10; i64 11; i64 12; i64 13; i64 14; i64 15; i64 16] !! 1%nat
    = Some (i64 11).
Proof. eexists. repeat split; by vm_compute. Qed.

(** C2, with the cell numbers counted from 1: on a full hexagon of [R]
    rings (up to [2^25], the range in which the ring of every cell is
    exact) given as a list from which numpy builds an array, and for up
    to six rotations either way, the value of position [i >= 1] (cell
    [i + 1]) is found, as the array holds it, at the position of cell
    [getIndexOfRotatedCell (i + 1) (steps mod 6)], and position 0 is
    fixed. *)
Theorem C2_index_bulk_consistency {A} (uninit : nat -> A)
    (beyond : list A -> Z -> list A) (cast : list A -> option (A -> A))
    (R : Z) (data : list A) (steps : Z) (conv : A -> A) :
  1 <= R <= maxExactRings ->
  Z.of_nat (length data) = totalPositionsUpToRing R ->
  -6 <= steps <= 6 ->
  cast data = Some conv ->
  exists out,
    rotateHexCellData uninit beyond cast (PyList data) (totalPositionsUpToRing R) steps
    = Ok (PyList out) /\
    out !! 0%nat = (conv <$> data) !! 0%nat /\
    forall i, 1 <= i <= totalPositionsUpToRing R - 1 ->
      exists j, getIndexOfRotatedCell (i + 1) (steps mod 6) = Ok j /\
        2 <= j <= totalPositionsUpToRing R /\
        out !! Z.to_nat (j - 1) = (conv <$> data) !! Z.to_nat i.
Proof.
  intros HR Hlen Hsteps Hcast.
  pose proof (full_hexagon_nonempty data R ltac:(lia) Hlen) as Hne.
  pose proof maxExactRings_le as Hmax.
  eexists. rewrite (rotateHexCellData_list _ _ _ _ _ _ conv) by done.
  rewrite rotateCells_full, result_bind_Ok; [|lia|done|].
  2:{ intros r Hr. apply pivot_ring_cyclic; [lia| |done].
      rewrite Hlen. apply totalPositionsUpToRing_mono. lia. }
  split; [done|].
  assert (Hlen1 : length (take 1 data) = 1%nat).
  { rewrite length_take. assert (1 <= totalPositionsUpToRing R)
      by (unfold totalPositionsUpToRing; nia). lia. }
  split.
  { rewrite !list_lookup_fmap. f_equal.
    rewrite lookup_app_l by lia. by rewrite lookup_take_lt by lia. }
  intros i Hi.
  destruct (numRingsToHoldNumCells_exact (i + 1)) as (r & _ & Hr & Hup & Hlo).
  { rewrite maxExactCells_eq.
    pose proof (totalPositionsUpToRing_mono R maxExactRings ltac:(lia)). lia. }
  assert (Hr2 : 2 <= r).
  { destruct (Z.eq_dec r 1) as [->|]; [|lia].
    change (totalPositionsUpToRing 1) with 1 in Hup. lia. }
  specialize (Hlo Hr2).
  assert (HrR : r <= R).
  { destruct (Z_le_gt_dec r R); [done|].
    pose proof (totalPositionsUpToRing_mono R (r - 1) ltac:(lia)). lia. }
  pose proof (Z.mod_pos_bound steps 6 ltac:(lia)) as Ho.
  rewrite (getIndexOfRotatedCell_in_ring (i + 1) (steps mod 6) r) by lia.
  set (t := totalPositionsUpToRing (r - 1)) in *.
  set (p := i - t).
  replace (i + 1 - t - 1) with p by (unfold p; lia).
  pose proof (Z.mod_pos_bound (p + (r - 1) * (steps mod 6)) (6 * (r - 1)) ltac:(lia)) as Hq.
  set (q := (p + (r - 1) * (steps mod 6)) mod (6 * (r - 1))) in *.
  pose proof (totalPositionsUpToRing_step r) as Hstep. fold t in Hstep.
  pose proof (totalPositionsUpToRing_mono r R ltac:(lia)) as HrRt.
  assert (1 <= t).
  { unfold t. change 1 with (totalPositionsUpToRing 1) at 1.
    apply totalPositionsUpToRing_mono. lia. }
  eexists. split; [done|]. split; [lia|].
  rewrite !list_lookup_fmap. f_equal.
  rewrite lookup_app_r by lia. rewrite Hlen1.
  replace (Z.to_nat (t + 1 + q - 1) - 1)%nat
    with (Z.to_nat (t - totalPositionsUpToRing 1 + q))
    by (change (totalPositionsUpToRing 1) with 1; lia).
  pose proof (lookup_rotatedRings data steps (Z.to_nat (R - 1)) 1 r q) as Hlook.
  change (1 + 1) with 2 in Hlook. fold t in Hlook.
  replace (1 + Z.of_nat (Z.to_nat (R - 1))) with R in Hlook by lia.
  rewrite Hlook by lia. f_equal. f_equal.
  unfold q. rewrite rotate_back by (unfold p; lia). unfold p. lia.
Qed.

Lemma C2_index_bulk_consistency_witness :
  exists out,
    rotateHexCellData (fun _ => i64 0) beyond_unchanged np_cast
      (PyList [i64 10; i64 11; i64 12; i64 13; i64 14; i64 15; i64 16])
      (totalPositionsUpToRing 2) (-2)
    = Ok (PyList out) /\
    out !! 0%nat
    = (id <$> [i64 10; i64 11; i64 12; i64 13; i64 14; i64 15; i64 16])
        !! 0%nat /\
    forall i, 1 <= i <= totalPositionsUpToRing 2 - 1 ->
      exists j, getIndexOfRotatedCell (i + 1) (-2 mod 6) = Ok j /\
        2 <= j <= totalPositionsUpToRing 2 /\
        out !! Z.to_nat (j - 1)
        = (id <$> [i64 10; i64 11; i64 12; i64 13; i64 14; i64 15; i64 16])
            !! Z.to_nat i.
Proof.
  apply (C2_index_bulk_consistency (fun _ => i64 0) beyond_unchanged np_cast 2
           [i64 10; i64 11; i64 12; i64 13; i64 14; i64 15; i64 16]
           (-2) id).
  - unfold maxExactRings. lia.
  - reflexivity.
  - lia.
  - reflexivity.
Defined.

(** ** Rejected calls *)

Lemma rotateRings_outcome {A} (beyond : list A -> Z -> list A) (conv : A -> A)
    (data : list A) nRotations rings : forall state,
  (exists state', rotateRings beyond conv data nRotations state rings = Ok state') \/
  rotateRings beyond conv data nRotations state rings = Raise ValueError.
Proof.
  induction rings as [|ring rings IH]; intros [buffer ringPosStart].
  - left. by eexists.
  - rewrite rotateRings_cons. unfold rotateRing, setslice.
    destruct (bool_decide _); [rewrite !result_bind_Ok; apply IH|].
    destruct (conv <$> pivot _ _ _) as [|v [|? ?]]; try (by right).
    rewrite !result_bind_Ok. apply IH.
Qed.

Lemma rotateCells_no_TypeError {A} (uninit : nat -> A) beyond conv data cells nRotations :
  rotateCells uninit beyond conv data cells nRotations <> Raise TypeError.
Proof.
  unfold rotateCells. destruct (Z.eqb_spec (Z.of_nat (length data)) cells) as [<-|];
    simpl; [|done].
  destruct data as [|center rest]; [done|]. cbv zeta.
  destruct (numRingsToHoldNumCells_outcome (Z.of_nat (length (center :: rest))))
    as [[r ->]| ->]; [lia| |done].
  rewrite result_bind_Ok.
  destruct (rotateRings_outcome beyond conv (center :: rest) nRotations
              (seqZ 2 (r + 1 - 2))
              (<[0%nat:=conv center]> (empty_like uninit (center :: rest)), 1))
    as [[state' ->]| ->]; done.
Qed.

Lemma rotateCells_wrong_size {A} (uninit : nat -> A) beyond conv data cells nRotations :
  Z.of_nat (length data) <> cells ->
  rotateCells uninit beyond conv data cells nRotations = Raise ValueError.
Proof.
  intros Hlen. unfold rotateCells.
  by replace (Z.of_nat (length data) =? cells) with false
    by (symmetry; by apply Z.eqb_neq).
Qed.

(** C8. [rotateHexCellData] raises [TypeError] exactly for a container
    that is neither a list nor an array, and [ValueError] for a list or an
    array whose length is not [cells]; both tests come before the buffer is
    made, and the data is only ever read. *)
Theorem C8_rejected_calls {A} (uninit : nat -> A)
    (beyond : list A -> Z -> list A) (cast : list A -> option (A -> A))
    (data : pydata A) (cells nRotations : Z) :
  (rotateHexCellData uninit beyond cast data cells nRotations = Raise TypeError
   <-> data = PyOther) /\
  (forall items, data = PyList items \/ data = NdArray items ->
     Z.of_nat (length items) <> cells ->
     rotateHexCellData uninit beyond cast data cells nRotations = Raise ValueError).
Proof.
  split.
  - split; [|by intros ->].
    destruct data as [items|items|]; [| |done]; simpl; intros Hraise; exfalso.
    + destruct (asarray cast items) as [conv|]; [|done].
      pose proof (rotateCells_no_TypeError uninit beyond conv items cells nRotations) as Hno.
      by destruct (rotateCells uninit beyond conv items cells nRotations) as [?|[]].
    + pose proof (rotateCells_no_TypeError uninit beyond id items cells nRotations) as Hno.
      by destruct (rotateCells uninit beyond id items cells nRotations) as [?|[]].
  - intros items Hdata Hlen. destruct Hdata as [-> | ->]; simpl.
    + destruct (asarray cast items) as [conv|]; [|done].
      by rewrite rotateCells_wrong_size.
    + by rewrite rotateCells_wrong_size.
Qed.

Lemma C8_rejected_calls_witness :
  rotateHexCellData (fun _ => i64 0) beyond_unchanged np_cast
    (PyList [i64 1; i64 2; i64 3]) 4 1 = Raise ValueError /\
  rotateHexCellData (fun _ => i64 0) beyond_unchanged np_cast
    (@PyOther pyobj) 4 1 = Raise TypeError.
Proof.
  split.
  - apply (proj2 (C8_rejected_calls (fun _ => i64 0) beyond_unchanged np_cast
                    (PyList [i64 1; i64 2; i64 3]) 4 1)
             [i64 1; i64 2; i64 3]).
    + left. reflexivity.
    + simpl. lia.
  - apply (proj1 (C8_rejected_calls (fun _ => i64 0) beyond_unchanged np_cast
                    (@PyOther pyobj) 4 1)). reflexivity.
Defined.

(** * Beyond the doubles: overflow, and negative cell counts *)

Lemma finish_outcome x e :
  2 ^ 52 <= x <= 2 ^ 53 -> -1074 <= e ->
  (971 < e -> finish x e = S754_infinity false) /\
  ((exists m e', finish x e = S754_finite false m e') \/
   finish x e = S754_infinity false).
Proof.
  intros Hx He. unfold finish.
  destruct (Z.eq_dec x (2 ^ 53)) as [->|Hne].
  - rewrite (shr_fexp_digits _ _ _ 1) by (reflexivity || lia). simpl.
    destruct (Z.leb_spec (e + 1) (emax - prec)) as [Hle|Hgt].
    + split; [unfold emax, prec in Hle; lia|]. left. by eexists _, _.
    + split; [done|]. by right.
  - rewrite (shr_fexp_digits _ _ _ 0) by (try apply Zdigits2_unique; lia).
    simpl shr. destruct x as [|p|p]; try lia. simpl shr_m.
    destruct (Z.leb_spec e (emax - prec)) as [Hle|Hgt].
    + split; [unfold emax, prec in Hle; lia|]. left. by eexists _, _.
    + split; [done|]. by right.
Qed.

(** The conversion of a positive integer is a positive double or infinite;
    it is infinite from [2^1024] on. *)
Lemma float_of_Z_outcome p :
  (2 ^ 1024 <= Zpos p -> float_of_Z (Zpos p) = S754_infinity false) /\
  ((exists m e, float_of_Z (Zpos p) = S754_finite false m e) \/
   float_of_Z (Zpos p) = S754_infinity false).
Proof.
  pose proof (digits2_pos_bounds p) as Hd.
  set (d := Zpos (digits2_pos p)) in *.
  assert (Hd1 : 1 <= d) by (unfold d; lia).
  destruct (Z_le_gt_dec d 53) as [Hsmall|Hbig].
  - destruct (float_of_Z_exact (Zpos p) d) as (mk & -> & _); [lia|done|].
    split; [|left; by eexists _, _].
    intros Hhuge. exfalso.
    assert (2 ^ d <= 2 ^ 1024) by (apply Z.pow_le_mono_r; lia). lia.
  - unfold float_of_Z, binary_normalize, binary_round. fold d.
    replace (fexp prec emax (d + 0)) with (d - 53)
      by (unfold fexp, SpecFloat.emin, prec, emax; lia).
    unfold shl_align. rewrite Z.sub_0_r.
    destruct (d - 53) as [|sh|sh] eqn:Hsh; try lia. cbv beta iota zeta.
    rewrite binary_round_aux_finish.
    rewrite (shr_fexp_digits _ _ _ (Zpos sh)) by (simpl Zdigits2; fold d; lia).
    unfold shr. simpl shr_record_of_loc. cbv beta iota zeta.
    rewrite iter_pos_nat. set (mrs := Nat.iter _ _ _).
    assert (Hq : shr_m mrs = Zpos p / 2 ^ Zpos sh).
    { unfold mrs. rewrite shr_iter_m by (simpl; lia). by rewrite positive_nat_Z. }
    assert (Hqb : 2 ^ 52 <= Zpos p / 2 ^ Zpos sh < 2 ^ 53).
    { assert (0 < 2 ^ Zpos sh) by lia.
      replace (2 ^ (d - 1)) with (2 ^ 52 * 2 ^ Zpos sh) in Hd
        by (rewrite <-pow2_split by lia; f_equal; lia).
      replace (2 ^ d) with (2 ^ 53 * 2 ^ Zpos sh) in Hd
        by (rewrite <-pow2_split by lia; f_equal; lia).
      split.
      - apply Z.div_le_lower_bound; lia.
      - apply Z.div_lt_upper_bound; lia. }
    pose proof (round_nearest_even_bounds (shr_m mrs) (loc_of_shr_record mrs)) as Hr.
    rewrite Hq in Hr.
    destruct (finish_outcome (round_nearest_even (shr_m mrs) (loc_of_shr_record mrs))
                (0 + Zpos sh)) as [Hinf Hout]; [rewrite Hq; lia|lia|].
    split; [|done]. intros Hhuge. apply Hinf.
    assert (1024 < d); [|lia]. apply pow2_lt_inv; lia.
Qed.

Lemma binary_round_aux_sign sx m e l :
  binary_round_aux prec emax sx m e l =
  match binary_round_aux prec emax false m e l with
  | S754_zero _ => S754_zero sx
  | S754_infinity _ => S754_infinity sx
  | S754_finite _ m' e' => S754_finite sx m' e'
  | S754_nan => S754_nan
  end.
Proof.
  unfold binary_round_aux.
  destruct (shr_fexp prec emax m e l) as [mrs e'].
  destruct (shr_fexp prec emax _ e' loc_Exact) as [mrs' e''].
  destruct (shr_m mrs'); try done. by destruct (e'' <=? emax - prec).
Qed.

Lemma numRingsToHoldNumCells_huge n :
  2 ^ 1024 <= n -> numRingsToHoldNumCells n = Raise OverflowError.
Proof.
  intros Hn. unfold numRingsToHoldNumCells.
  assert (2 ^ 1024 > 0) by lia.
  replace (n =? 0) with false by (symmetry; apply Z.eqb_neq; lia).
  set (q := 4 * (n - 1) / 3).
  assert (Hq : 3 * q <= 4 * (n - 1) < 3 * q + 3) by (unfold q; dlia).
  clearbody q.
  destruct (1 + q) as [|p|p] eqn:Hk; try lia.
  destruct (float_of_Z_outcome p) as [Hinf _].
  unfold Float64.of_int. change (binary_normalize _ _ (Zpos p) 0 false) with (float_of_Z (Zpos p)).
  rewrite Hinf by lia. done.
Qed.

Lemma numRingsToHoldNumCells_negative n :
  n < 0 ->
  numRingsToHoldNumCells n = Raise ValueError \/
  numRingsToHoldNumCells n = Raise OverflowError.
Proof.
  intros Hn. unfold numRingsToHoldNumCells.
  replace (n =? 0) with false by (symmetry; apply Z.eqb_neq; lia).
  set (q := 4 * (n - 1) / 3).
  assert (Hq : 3 * q <= 4 * (n - 1) < 3 * q + 3) by (unfold q; dlia).
  clearbody q.
  destruct (1 + q) as [|p|p] eqn:Hk; try lia.
  unfold Float64.of_int, binary_normalize, binary_round.
  destruct (shl_align p 0 _) as [mz ez] eqn:Hal.
  rewrite binary_round_aux_sign.
  destruct (float_of_Z_outcome p) as [_ Hout].
  unfold float_of_Z, binary_normalize, binary_round in Hout. rewrite Hal in Hout.
  destruct Hout as [(m & e & ->)| ->]; [by left|by right].
Qed.

(** * Further properties of the ring arithmetic *)

(** Within the exact range the closed form returns the least ring that
    holds the cells. *)
Theorem numRingsToHoldNumCells_minimal_ring n :
  1 <= n <= maxExactCells ->
  exists r, numRingsToHoldNumCells n = Ok r /\ 1 <= r /\
    n <= totalPositionsUpToRing r /\
    forall r', 1 <= r' -> n <= totalPositionsUpToRing r' -> r <= r'.
Proof.
  intros Hn. destruct (numRingsToHoldNumCells_exact n Hn) as (r & Hr & Hr1 & Hup & Hlo).
  exists r. split; [done|]. split; [lia|]. split; [done|].
  intros r' Hr' Hup'. destruct (Z_le_gt_dec r r') as [|Hgt]; [done|exfalso].
  pose proof (totalPositionsUpToRing_mono r' (r - 1) ltac:(lia)).
  specialize (Hlo ltac:(lia)). lia.
Qed.

Lemma numRingsToHoldNumCells_minimal_ring_witness :
  exists r, numRingsToHoldNumCells 20 = Ok r /\ 1 <= r /\
    20 <= totalPositionsUpToRing r /\
    forall r', 1 <= r' -> 20 <= totalPositionsUpToRing r' -> r <= r'.
Proof. apply (numRingsToHoldNumCells_minimal_ring 20). unfold maxExactCells. lia. Defined.

(** The ring boundaries are exact on both sides: a full hexagon of [R]
    rings needs [R] rings, one more cell needs [R + 1]. *)
Theorem numRingsToHoldNumCells_at_boundaries R :
  1 <= R < maxExactRings ->
  numRingsToHoldNumCells (totalPositionsUpToRing R) = Ok R /\
  numRingsToHoldNumCells (totalPositionsUpToRing R + 1) = Ok (R + 1).
Proof.
  intros HR. split; [apply numRingsToHoldNumCells_full; lia|].
  apply numRingsToHoldNumCells_in_ring; try lia.
  - rewrite (totalPositionsUpToRing_step (R + 1)).
    replace (R + 1 - 1) with R by lia. lia.
  - intros _. replace (R + 1 - 1) with R by lia. lia.
  - unfold totalPositionsUpToRing. nia.
Qed.

Lemma numRingsToHoldNumCells_at_boundaries_witness :
  numRingsToHoldNumCells (totalPositionsUpToRing 3) = Ok 3 /\
  numRingsToHoldNumCells (totalPositionsUpToRing 3 + 1) = Ok (3 + 1).
Proof. apply (numRingsToHoldNumCells_at_boundaries 3). unfold maxExactRings. lia. Defined.

(** More cells never need fewer rings. *)
Theorem numRingsToHoldNumCells_monotone n n' :
  0 <= n <= n' -> n' <= maxExactCells ->
  exists r r', numRingsToHoldNumCells n = Ok r /\
    numRingsToHoldNumCells n' = Ok r' /\ r <= r'.
Proof.
  intros Hn Hn'.
  destruct (Z.eq_dec n 0) as [->|Hn0].
  - destruct (Z.eq_dec n' 0) as [->|Hn'0]; [by exists 0, 0|].
    destruct (numRingsToHoldNumCells_exact n') as (r' & Hr' & Hr1 & _); [lia|].
    exists 0, r'. split; [done|]. split; [done|]. lia.
  - destruct (numRingsToHoldNumCells_exact n) as (r & Hr & Hr1 & Hup & Hlo); [lia|].
    destruct (numRingsToHoldNumCells_exact n') as (r' & Hr' & Hr1' & Hup' & Hlo'); [lia|].
    exists r, r'. split; [done|]. split; [done|].
    destruct (Z_le_gt_dec r r') as [|Hgt]; [done|exfalso].
    pose proof (totalPositionsUpToRing_mono r' (r - 1) ltac:(lia)).
    specialize (Hlo ltac:(lia)). lia.
Qed.

Lemma numRingsToHoldNumCells_monotone_witness :
  exists r r', numRingsToHoldNumCells 7 = Ok r /\
    numRingsToHoldNumCells 8 = Ok r' /\ r <= r'.
Proof. apply (numRingsToHoldNumCells_monotone 7 8); unfold maxExactCells; lia. Defined.

(** From [2^1024] cells on, the conversion to a double overflows. *)
Theorem numRingsToHoldNumCells_overflow n :
  2 ^ 1024 <= n -> numRingsToHoldNumCells n = Raise OverflowError.
Proof. apply numRingsToHoldNumCells_huge. Qed.

Lemma numRingsToHoldNumCells_overflow_witness :
  numRingsToHoldNumCells (2 ^ 1024 + 5) = Raise OverflowError.
Proof. apply (numRingsToHoldNumCells_overflow (2 ^ 1024 + 5)). lia. Defined.

(** A negative cell count never yields a ring count: the square root of
    a negative double is a domain error, unless the conversion overflows
    first. *)
Theorem numRingsToHoldNumCells_rejects_negative n :
  n < 0 ->
  numRingsToHoldNumCells n = Raise ValueError \/
  numRingsToHoldNumCells n = Raise OverflowError.
Proof. apply numRingsToHoldNumCells_negative. Qed.

Lemma numRingsToHoldNumCells_rejects_negative_witness :
  numRingsToHoldNumCells (-7) = Raise ValueError \/
  numRingsToHoldNumCells (-7) = Raise OverflowError.
Proof. apply (numRingsToHoldNumCells_rejects_negative (-7)). lia. Defined.

(** The cells up to a ring are those up to the ring before plus the
    positions of the ring itself, which come in six edges of [ring - 1]
    positions. *)
Theorem ring_sizes_add_up ring :
  2 <= ring ->
  totalPositionsUpToRing ring
  = totalPositionsUpToRing (ring - 1) + numPositionsInRing ring /\
  numPositionsInRing ring / 6 = ring - 1 /\
  totalPositionsUpToRing (ring - 1) < totalPositionsUpToRing ring.
Proof.
  intros Hr. unfold numPositionsInRing.
  replace (negb (ring =? 1)) with true
    by (symmetry; apply negb_true_iff, Z.eqb_neq; lia).
  rewrite (totalPositionsUpToRing_step ring). repeat split; [lia|dlia|lia].
Qed.

Lemma ring_sizes_add_up_witness :
  totalPositionsUpToRing 3 = totalPositionsUpToRing (3 - 1) + numPositionsInRing 3 /\
  numPositionsInRing 3 / 6 = 3 - 1 /\
  totalPositionsUpToRing (3 - 1) < totalPositionsUpToRing 3.
Proof. apply (ring_sizes_add_up 3). lia. Defined.

(** * Further properties of the rotation of one cell index *)

Lemma mod6_edge p e n :
  0 < e -> (p + e * (n mod 6)) mod (6 * e) = (p + e * n) mod (6 * e).
Proof.
  intros He. pose proof (Z.div_mod n 6 ltac:(lia)) as Hn.
  replace (p + e * n) with (p + e * (n mod 6) + n / 6 * (6 * e)).
  - by rewrite Z.mod_add by lia.
  - rewrite Hn at 3. ring.
Qed.

Lemma getIndexOfRotatedCell_centre o :
  0 <= o <= 5 -> getIndexOfRotatedCell 1 o = Ok 1.
Proof.
  intros Ho. unfold getIndexOfRotatedCell.
  by replace ((o <? 0) || (5 <? o)) with false by (symmetry; apply orb_false_iff; lia).
Qed.

(** The ring of a cell of the exact range, with the data of
    [getIndexOfRotatedCell_in_ring]. *)
Lemma ring_of_cell i :
  2 <= i <= maxExactCells ->
  exists r, 2 <= r <= maxExactRings /\
    totalPositionsUpToRing (r - 1) < i <= totalPositionsUpToRing r /\
    numRingsToHoldNumCells i = Ok r.
Proof.
  intros Hi. destruct (numRingsToHoldNumCells_exact i) as (r & Hr & Hr1 & Hup & Hlo); [lia|].
  assert (2 <= r).
  { destruct (Z.eq_dec r 1) as [->|]; [|lia].
    change (totalPositionsUpToRing 1) with 1 in Hup. lia. }
  exists r. split; [lia|]. split; [|done]. split; [apply Hlo; lia|done].
Qed.

Lemma getIndexOfRotatedCell_compose i o1 o2 :
  1 <= i <= maxExactCells -> 0 <= o1 <= 5 -> 0 <= o2 <= 5 ->
  (j ← getIndexOfRotatedCell i o1; getIndexOfRotatedCell j o2)
  = getIndexOfRotatedCell i ((o1 + o2) mod 6).
Proof.
  intros Hi Ho1 Ho2.
  pose proof (Z.mod_pos_bound (o1 + o2) 6 ltac:(lia)) as Ho.
  destruct (Z.eq_dec i 1) as [->|Hne].
  { by rewrite !getIndexOfRotatedCell_centre, result_bind_Ok,
      getIndexOfRotatedCell_centre by lia. }
  destruct (ring_of_cell i) as (r & Hr & Hin & _); [lia|].
  rewrite (getIndexOfRotatedCell_in_ring i o1 r), result_bind_Ok by lia.
  rewrite (getIndexOfRotatedCell_in_ring i _ r) by lia.
  set (t := totalPositionsUpToRing (r - 1)) in *.
  pose proof (totalPositionsUpToRing_step r) as Hstep. fold t in Hstep.
  pose proof (Z.mod_pos_bound (i - t - 1 + (r - 1) * o1) (6 * (r - 1)) ltac:(lia)) as Hq.
  rewrite (getIndexOfRotatedCell_in_ring _ o2 r) by (fold t; lia).
  fold t. do 2 f_equal.
  replace (t + 1 + (i - t - 1 + (r - 1) * o1) mod (6 * (r - 1)) - t - 1)
    with ((i - t - 1 + (r - 1) * o1) mod (6 * (r - 1))) by lia.
  rewrite Zplus_mod_idemp_l, mod6_edge by lia. f_equal. ring.
Qed.

(** [ValueError] is raised for a cell index below 1 or an orientation
    outside [0..5], and for nothing else. *)
Theorem getIndexOfRotatedCell_ValueError_iff i o :
  getIndexOfRotatedCell i o = Raise ValueError <-> i < 1 \/ o < 0 \/ 5 < o.
Proof.
  unfold getIndexOfRotatedCell.
  destruct (Z.ltb_spec o 0); [simpl; split; [lia|done]|].
  destruct (Z.ltb_spec 5 o); [simpl; split; [lia|done]|]. simpl.
  destruct (Z.ltb_spec 1 i).
  - destruct (Z.eqb_spec o 0); [split; [done|lia]|].
    destruct (numRingsToHoldNumCells_outcome i) as [[r ->]| ->]; [lia| |];
      (split; [done|lia]).
  - destruct (Z.eqb_spec i 1); split; try done; lia.
Qed.

(** A rotated cell stays in its ring. *)
Theorem getIndexOfRotatedCell_same_ring i o :
  2 <= i <= maxExactCells -> 0 <= o <= 5 ->
  exists j r, getIndexOfRotatedCell i o = Ok j /\
    numRingsToHoldNumCells i = Ok r /\ numRingsToHoldNumCells j = Ok r /\
    totalPositionsUpToRing (r - 1) < j <= totalPositionsUpToRing r.
Proof.
  intros Hi Ho. destruct (ring_of_cell i Hi) as (r & Hr & Hin & Hring).
  rewrite (getIndexOfRotatedCell_in_ring i o r) by lia.
  set (t := totalPositionsUpToRing (r - 1)) in *.
  pose proof (totalPositionsUpToRing_step r) as Hstep. fold t in Hstep.
  pose proof (Z.mod_pos_bound (i - t - 1 + (r - 1) * o) (6 * (r - 1)) ltac:(lia)) as Hq.
  eexists _, r. split; [done|]. split; [done|].
  assert (1 <= t).
  { unfold t. change 1 with (totalPositionsUpToRing 1) at 1.
    apply totalPositionsUpToRing_mono. lia. }
  split; [|lia].
  apply numRingsToHoldNumCells_in_ring; fold t; lia.
Qed.

Lemma getIndexOfRotatedCell_same_ring_witness :
  exists j r, getIndexOfRotatedCell 18 3 = Ok j /\
    numRingsToHoldNumCells 18 = Ok r /\ numRingsToHoldNumCells j = Ok r /\
    totalPositionsUpToRing (r - 1) < j <= totalPositionsUpToRing r.
Proof.
  apply (getIndexOfRotatedCell_same_ring 18 3); unfold maxExactCells; lia.
Defined.

(** Two rotations in a row are the rotation by the sum of the
    orientations, counted modulo six. *)
Theorem getIndexOfRotatedCell_composes i o1 o2 :
  1 <= i <= maxExactCells -> 0 <= o1 <= 5 -> 0 <= o2 <= 5 ->
  (j ← getIndexOfRotatedCell i o1; getIndexOfRotatedCell j o2)
  = getIndexOfRotatedCell i ((o1 + o2) mod 6).
Proof. apply getIndexOfRotatedCell_compose. Qed.

Lemma getIndexOfRotatedCell_composes_witness :
  (j ← getIndexOfRotatedCell 18 3; getIndexOfRotatedCell j 5)
  = getIndexOfRotatedCell 18 ((3 + 5) mod 6).
Proof.
  apply (getIndexOfRotatedCell_composes 18 3 5); unfold maxExactCells; lia.
Defined.

(** The rotation by the remaining orientation brings a cell back. *)
Theorem getIndexOfRotatedCell_round_trip i o :
  1 <= i <= maxExactCells -> 0 <= o <= 5 ->
  (j ← getIndexOfRotatedCell i o; getIndexOfRotatedCell j ((6 - o) mod 6)) = Ok i.
Proof.
  intros Hi Ho.
  pose proof (Z.mod_pos_bound (6 - o) 6 ltac:(lia)).
  rewrite getIndexOfRotatedCell_compose by lia.
  replace ((o + (6 - o) mod 6) mod 6) with 0 by dlia.
  unfold getIndexOfRotatedCell. simpl.
  destruct (Z.ltb_spec 1 i); [done|].
  by replace (i =? 1) with true by (symmetry; apply Z.eqb_eq; lia).
Qed.

Lemma getIndexOfRotatedCell_round_trip_witness :
  (j ← getIndexOfRotatedCell 18 2; getIndexOfRotatedCell j ((6 - 2) mod 6)) = Ok 18.
Proof.
  apply (getIndexOfRotatedCell_round_trip 18 2); unfold maxExactCells; lia.
Defined.

(** * Further properties of the ring count *)

(** At the size of a full hexagon the closed form is exact up to [2^52]
    rings: the square of [2 R - 1] is then rounded to a double whose
    square root rounds back to [2 R - 1]. *)
Theorem numRingsToHoldNumCells_exact_at_full_hexagons R :
  1 <= R <= 2 ^ 52 ->
  numRingsToHoldNumCells (totalPositionsUpToRing R) = Ok R.
Proof. apply numRingsToHoldNumCells_full_hexagon. Qed.

Lemma numRingsToHoldNumCells_exact_at_full_hexagons_witness :
  numRingsToHoldNumCells (totalPositionsUpToRing 3000000000) = Ok 3000000000.
Proof. apply (numRingsToHoldNumCells_exact_at_full_hexagons 3000000000). lia. Defined.

(** * Further properties of the rotation of the data *)

(** Every position but the centre lies in one ring. *)
Lemma position_ring R i :
  1 <= R -> 1 <= i < totalPositionsUpToRing R ->
  exists r q, 2 <= r <= R /\ 0 <= q < 6 * (r - 1) /\
    i = totalPositionsUpToRing (r - 1) + q.
Proof.
  intros HR. replace R with (1 + Z.of_nat (Z.to_nat (R - 1))) by lia.
  generalize (Z.to_nat (R - 1)). clear HR R. intros k. induction k as [|k IH]; intros Hi.
  - change (totalPositionsUpToRing (1 + Z.of_nat 0)) with 1 in Hi. lia.
  - destruct (Z_lt_le_dec i (totalPositionsUpToRing (1 + Z.of_nat k))) as [Hlt|Hge].
    + destruct IH as (r & q & Hr & Hq & ->); [lia|]. exists r, q. lia.
    + pose proof (totalPositionsUpToRing_step (1 + Z.of_nat (S k))) as Hstep.
      replace (1 + Z.of_nat (S k) - 1) with (1 + Z.of_nat k) in Hstep by lia.
      exists (1 + Z.of_nat (S k)), (i - totalPositionsUpToRing (1 + Z.of_nat k)).
      replace (1 + Z.of_nat (S k) - 1) with (1 + Z.of_nat k) by lia. lia.
Qed.

Section RotationProperties.

Context {A : Type}.
Implicit Types data items : list A.

(** The rotated full hexagon, position by position. *)
Lemma lookup_rotated data nRotations R r q :
  1 <= R -> Z.of_nat (length data) = totalPositionsUpToRing R ->
  2 <= r <= R -> 0 <= q < 6 * (r - 1) ->
  (take 1 data ++ rotatedRings data nRotations 2 (Z.to_nat (R - 1)))
    !! Z.to_nat (totalPositionsUpToRing (r - 1) + q)
  = data !! Z.to_nat (totalPositionsUpToRing (r - 1)
                      + (q - nRotations * (r - 1)) mod (6 * (r - 1))).
Proof.
  intros HR Hlen Hr Hq.
  assert (1 <= totalPositionsUpToRing R) by (unfold totalPositionsUpToRing; nia).
  assert (Hlen1 : length (take 1 data) = 1%nat) by (rewrite length_take; lia).
  assert (1 <= totalPositionsUpToRing (r - 1)).
  { change 1 with (totalPositionsUpToRing 1) at 1.
    apply totalPositionsUpToRing_mono. lia. }
  rewrite lookup_app_r by lia. rewrite Hlen1.
  pose proof (lookup_rotatedRings data nRotations (Z.to_nat (R - 1)) 1 r q) as Hlook.
  change (1 + 1) with 2 in Hlook.
  replace (1 + Z.of_nat (Z.to_nat (R - 1))) with R in Hlook by lia.
  rewrite <-Hlook by lia. f_equal.
  change (totalPositionsUpToRing 1) with 1. lia.
Qed.

Lemma length_rotated data nRotations R :
  1 <= R -> Z.of_nat (length data) = totalPositionsUpToRing R ->
  length (take 1 data ++ rotatedRings data nRotations 2 (Z.to_nat (R - 1)))
  = length data.
Proof. intros HR Hlen. by apply Permutation_length, rotatedRings_all. Qed.

(** Two lists of the size of a full hexagon are equal when they agree at
    the centre and ring by ring. *)
Lemma full_hexagon_eq (l1 l2 : list A) R :
  1 <= R -> Z.of_nat (length l1) = totalPositionsUpToRing R ->
  length l2 = length l1 ->
  l1 !! 0%nat = l2 !! 0%nat ->
  (forall r q, 2 <= r <= R -> 0 <= q < 6 * (r - 1) ->
     l1 !! Z.to_nat (totalPositionsUpToRing (r - 1) + q)
     = l2 !! Z.to_nat (totalPositionsUpToRing (r - 1) + q)) ->
  l1 = l2.
Proof.
  intros HR Hlen Hlen2 H0 Hrings. apply list_eq. intros i.
  destruct (decide (i = 0%nat)) as [->|Hne]; [done|].
  destruct (decide (i < length l1)%nat) as [Hlt|Hge].
  - destruct (position_ring R (Z.of_nat i)) as (r & q & Hr & Hq & Hi); [lia|lia|].
    specialize (Hrings r q Hr Hq). rewrite <-Hi, Nat2Z.id in Hrings. done.
  - rewrite !lookup_ge_None_2 by lia. done.
Qed.

Lemma rotated_compose data n1 n2 R :
  1 <= R -> Z.of_nat (length data) = totalPositionsUpToRing R ->
  let out1 := take 1 data ++ rotatedRings data n1 2 (Z.to_nat (R - 1)) in
  take 1 out1 ++ rotatedRings out1 n2 2 (Z.to_nat (R - 1))
  = take 1 data ++ rotatedRings data (n1 + n2) 2 (Z.to_nat (R - 1)).
Proof.
  intros HR Hlen out1.
  pose proof (length_rotated data n1 R HR Hlen) as Hlen1. fold out1 in Hlen1.
  assert (Hlen1' : Z.of_nat (length out1) = totalPositionsUpToRing R) by lia.
  assert (1 <= totalPositionsUpToRing R) by (unfold totalPositionsUpToRing; nia).
  apply (full_hexagon_eq _ _ R); try done.
  - by rewrite length_rotated.
  - by rewrite !length_rotated.
  - rewrite !lookup_app_l by (rewrite length_take; lia).
    rewrite !lookup_take_lt by lia. unfold out1.
    rewrite lookup_app_l by (rewrite length_take; lia).
    by rewrite lookup_take_lt by lia.
  - intros r q Hr Hq. rewrite !lookup_rotated by done.
    pose proof (Z.mod_pos_bound (q - n2 * (r - 1)) (6 * (r - 1)) ltac:(lia)) as Hq2.
    unfold out1. rewrite lookup_rotated by done. do 3 f_equal.
    rewrite Zminus_mod_idemp_l. f_equal. ring.
Qed.

Lemma rotated_period data n R :
  1 <= R -> Z.of_nat (length data) = totalPositionsUpToRing R ->
  take 1 data ++ rotatedRings data (n mod 6) 2 (Z.to_nat (R - 1))
  = take 1 data ++ rotatedRings data n 2 (Z.to_nat (R - 1)).
Proof.
  intros HR Hlen.
  assert (1 <= totalPositionsUpToRing R) by (unfold totalPositionsUpToRing; nia).
  apply (full_hexagon_eq _ _ R); try done.
  - by rewrite length_rotated.
  - by rewrite !length_rotated.
  - by rewrite !lookup_app_l by (rewrite length_take; lia).
  - intros r q Hr Hq. rewrite !lookup_rotated by done. do 3 f_equal.
    pose proof (Z.div_mod n 6 ltac:(lia)) as Hn.
    replace (q - n mod 6 * (r - 1))
      with (q - n * (r - 1) + n / 6 * (6 * (r - 1))) by (rewrite Hn at 1; ring).
    by rewrite Z.mod_add by lia.
Qed.

Variable uninit : nat -> A.
Variable beyond : list A -> Z -> list A.
Variable cast : list A -> option (A -> A).

(** A full hexagon in an array, rotated by up to six steps. *)
Lemma rotateHexCellData_array_full data nRotations R :
  1 <= R <= maxFullRings ->
  Z.of_nat (length data) = totalPositionsUpToRing R ->
  -6 <= nRotations <= 6 ->
  rotateHexCellData uninit beyond cast (NdArray data) (totalPositionsUpToRing R) nRotations
  = Ok (NdArray (take 1 data ++ rotatedRings data nRotations 2 (Z.to_nat (R - 1)))).
Proof.
  intros HR Hlen Hn. unfold rotateHexCellData.
  rewrite rotateCells_full, result_bind_Ok; [by rewrite list_fmap_id|done|done|].
  intros r Hr. apply pivot_ring_cyclic; [lia| |done].
  rewrite Hlen. apply totalPositionsUpToRing_mono. lia.
Qed.

(** Rotating an array twice is rotating it once by the sum of the
    rotations, as long as neither is more than a full turn. *)
Theorem rotateHexCellData_composes R data n1 n2 :
  1 <= R <= maxFullRings ->
  Z.of_nat (length data) = totalPositionsUpToRing R ->
  -6 <= n1 <= 6 -> -6 <= n2 <= 6 -> -6 <= n1 + n2 <= 6 ->
  exists out1,
    rotateHexCellData uninit beyond cast (NdArray data) (totalPositionsUpToRing R) n1
    = Ok (NdArray out1) /\
    rotateHexCellData uninit beyond cast (NdArray out1) (totalPositionsUpToRing R) n2
    = rotateHexCellData uninit beyond cast (NdArray data) (totalPositionsUpToRing R) (n1 + n2).
Proof.
  intros HR Hlen H1 H2 H12.
  exists (take 1 data ++ rotatedRings data n1 2 (Z.to_nat (R - 1))).
  rewrite !(rotateHexCellData_array_full data) by done. split; [done|].
  rewrite rotateHexCellData_array_full by (done || by rewrite length_rotated by lia).
  by rewrite rotated_compose by (done || lia).
Qed.

(** Turning an array clockwise is turning it counter-clockwise by the
    rest of the full turn: up to six rotations either way give what their
    number modulo six gives. *)
Theorem rotateHexCellData_period_six R data n :
  1 <= R <= maxFullRings ->
  Z.of_nat (length data) = totalPositionsUpToRing R ->
  -6 <= n <= 6 ->
  rotateHexCellData uninit beyond cast (NdArray data) (totalPositionsUpToRing R) n
  = rotateHexCellData uninit beyond cast (NdArray data) (totalPositionsUpToRing R) (n mod 6).
Proof.
  intros HR Hlen Hn.
  pose proof (Z.mod_pos_bound n 6 ltac:(lia)).
  rewrite !rotateHexCellData_array_full by (done || lia).
  by rewrite rotated_period by (done || lia).
Qed.

(** Rotating an array back by the same number of steps restores it. *)
Theorem rotateHexCellData_round_trip R data n :
  1 <= R <= maxFullRings ->
  Z.of_nat (length data) = totalPositionsUpToRing R ->
  -6 <= n <= 6 ->
  exists out,
    rotateHexCellData uninit beyond cast (NdArray data) (totalPositionsUpToRing R) n
    = Ok (NdArray out) /\
    rotateHexCellData uninit beyond cast (NdArray out) (totalPositionsUpToRing R) (- n)
    = Ok (NdArray data).
Proof.
  intros HR Hlen Hn.
  exists (take 1 data ++ rotatedRings data n 2 (Z.to_nat (R - 1))).
  rewrite (rotateHexCellData_array_full data) by done. split; [done|].
  rewrite rotateHexCellData_array_full by (lia || done || by rewrite length_rotated by lia).
  rewrite rotated_compose by (done || lia).
  replace (n + - n) with (6 * 0) by lia. by rewrite rotated_full_turn by (done || lia).
Qed.

(** Without a centre cell there is nothing to rotate: zero cells are
    refused, with [IndexError] for empty data. *)
Theorem rotateHexCellData_no_cells (kind : list A -> pydata A) data nRotations :
  kind = PyList \/ kind = NdArray ->
  rotateHexCellData uninit beyond cast (kind data) 0 nRotations
  = Raise (match data with [] => IndexError | _ :: _ => ValueError end).
Proof.
  intros [-> | ->]; destruct data as [|x data]; try done;
    unfold rotateHexCellData, asarray.
  destruct (cast (x :: data)) as [conv|]; [|done].
  by rewrite rotateCells_wrong_size by (simpl; lia).
Qed.

(** Whatever the length of the data, as long as [cells] states it, and
    whatever the number of rotations: if [pivot] returns a reordering of
    its items also beyond their length, the rotation succeeds and the
    result holds the values of the data (for a list, as the array holds
    them) and nothing of what the buffer held before, the centre in its
    place; each ring, also a last ring cut short, is reordered within
    itself. *)
Theorem rotateHexCellData_permutes data nRotations :
  (forall items p, beyond items p ≡ₚ items) ->
  1 <= Z.of_nat (length data) <= maxExactCells ->
  (exists out,
     rotateHexCellData uninit beyond cast (NdArray data) (Z.of_nat (length data)) nRotations
     = Ok (NdArray out) /\
     out ≡ₚ data /\ out !! 0%nat = data !! 0%nat) /\
  (forall conv, cast data = Some conv ->
   exists out,
     rotateHexCellData uninit beyond cast (PyList data) (Z.of_nat (length data)) nRotations
     = Ok (PyList out) /\
     out ≡ₚ conv <$> data /\ out !! 0%nat = (conv <$> data) !! 0%nat).
Proof.
  intros Hb Hlen.
  destruct (numRingsToHoldNumCells_exact _ Hlen) as (R & HR & HR1 & Hup & Hlo).
  split.
  - destruct (rotateCells_perm beyond id uninit data nRotations R)
      as (out & Hout & Hperm & Hc); [done|done|lia|lia|].
    rewrite list_fmap_id in Hperm, Hc.
    exists out. unfold rotateHexCellData. by rewrite Hout, result_bind_Ok.
  - intros conv Hcast.
    destruct (rotateCells_perm beyond conv uninit data nRotations R)
      as (out & Hout & Hperm & Hc); [done|done|lia|lia|].
    exists out. rewrite (rotateHexCellData_list _ _ _ _ _ _ conv); [|by intros ->|done].
    by rewrite Hout, result_bind_Ok.
Qed.

End RotationProperties.

Lemma rotateHexCellData_composes_witness :
  exists out1,
    rotateHexCellData (fun _ => i64 0) beyond_unchanged np_cast
      (NdArray [i64 10; i64 11; i64 12; i64 13; i64 14; i64 15; i64 16])
      (totalPositionsUpToRing 2) 5
    = Ok (NdArray out1) /\
    rotateHexCellData (fun _ => i64 0) beyond_unchanged np_cast
      (NdArray out1) (totalPositionsUpToRing 2) (-3)
    = rotateHexCellData (fun _ => i64 0) beyond_unchanged np_cast
        (NdArray [i64 10; i64 11; i64 12; i64 13; i64 14; i64 15; i64 16])
        (totalPositionsUpToRing 2) (5 + -3).
Proof.
  apply (rotateHexCellData_composes (fun _ => i64 0) beyond_unchanged np_cast 2
           [i64 10; i64 11; i64 12; i64 13; i64 14; i64 15; i64 16] 5 (-3)).
  - unfold maxFullRings. lia.
  - reflexivity.
  - lia.
  - lia.
  - lia.
Defined.

Lemma rotateHexCellData_period_six_witness :
  rotateHexCellData (fun _ => i64 0) beyond_unchanged np_cast
    (NdArray [i64 10; i64 11; i64 12; i64 13; i64 14; i64 15; i64 16])
    (totalPositionsUpToRing 2) (-2)
  = rotateHexCellData (fun _ => i64 0) beyond_unchanged np_cast
      (NdArray [i64 10; i64 11; i64 12; i64 13; i64 14; i64 15; i64 16])
      (totalPositionsUpToRing 2) (-2 mod 6).
Proof.
  apply (rotateHexCellData_period_six (fun _ => i64 0) beyond_unchanged np_cast 2
           [i64 10; i64 11; i64 12; i64 13; i64 14; i64 15; i64 16] (-2)).
  - unfold maxFullRings. lia.
  - reflexivity.
  - lia.
Defined.

Lemma rotateHexCellData_round_trip_witness :
  exists out,
    rotateHexCellData (fun _ => i64 0) beyond_unchanged np_cast
      (NdArray [i64 10; i64 11; i64 12; i64 13; i64 14; i64 15; i64 16])
      (totalPositionsUpToRing 2) 4
    = Ok (NdArray out) /\
    rotateHexCellData (fun _ => i64 0) beyond_unchanged np_cast
      (NdArray out) (totalPositionsUpToRing 2) (- 4)
    = Ok (NdArray [i64 10; i64 11; i64 12; i64 13; i64 14; i64 15; i64 16]).
Proof.
  apply (rotateHexCellData_round_trip (fun _ => i64 0) beyond_unchanged np_cast 2
           [i64 10; i64 11; i64 12; i64 13; i64 14; i64 15; i64 16] 4).
  - unfold maxFullRings. lia.
  - reflexivity.
  - lia.
Defined.

Lemma rotateHexCellData_no_cells_witness :
  rotateHexCellData (fun _ => i64 0) beyond_unchanged np_cast (PyList []) 0 3
  = Raise IndexError.
Proof.
  apply (rotateHexCellData_no_cells (fun _ => i64 0) beyond_unchanged np_cast PyList [] 3).
  left. reflexivity.
Defined.

Lemma rotateHexCellData_permutes_witness :
  (exists out,
     rotateHexCellData (fun _ => i64 0) beyond_unchanged np_cast
       (NdArray [i64 10; i64 11; i64 12; i64 13; i64 14])
       (Z.of_nat (length [i64 10; i64 11; i64 12; i64 13; i64 14])) 5
     = Ok (NdArray out) /\
     out ≡ₚ [i64 10; i64 11; i64 12; i64 13; i64 14] /\
     out !! 0%nat = [i64 10; i64 11; i64 12; i64 13; i64 14] !! 0%nat) /\
  (forall conv,
   np_cast [i64 10; i64 11; i64 12; i64 13; i64 14] = Some conv ->
   exists out,
     rotateHexCellData (fun _ => i64 0) beyond_unchanged np_cast
       (PyList [i64 10; i64 11; i64 12; i64 13; i64 14])
       (Z.of_nat (length [i64 10; i64 11; i64 12; i64 13; i64 14])) 5
     = Ok (PyList out) /\
     out ≡ₚ conv <$> [i64 10; i64 11; i64 12; i64 13; i64 14] /\
     out !! 0%nat = (conv <$> [i64 10; i64 11; i64 12; i64 13; i64 14]) !! 0%nat).
Proof.
  apply (rotateHexCellData_permutes (fun _ => i64 0) beyond_unchanged np_cast
           [i64 10; i64 11; i64 12; i64 13; i64 14] 5).
  - intros items p. reflexivity.
  - unfold maxExactCells. simpl. lia.
Defined.

(** * Hexagon geometry: side and pitch *)

Lemma SQRT3_value : SQRT3 = S754_finite false 7800463371553962 (-52).
Proof. by vm_compute. Qed.

Lemma SFmul_opp_l x y :
  SFmul prec emax (SFopp x) y = SFopp (SFmul prec emax x y).
Proof.
  destruct x as [sx|sx| |sx mx ex], y as [sy|sy| |sy my ey]; simpl; try done;
    try (by destruct sx, sy).
  rewrite (binary_round_aux_sign (xorb (negb sx) sy)),
    (binary_round_aux_sign (xorb sx sy)).
  destruct (binary_round_aux prec emax false _ _ _); simpl; try done;
    by destruct sx, sy.
Qed.

Lemma SFdiv_opp_l x y :
  SFdiv prec emax (SFopp x) y = SFopp (SFdiv prec emax x y).
Proof.
  destruct x as [sx|sx| |sx mx ex], y as [sy|sy| |sy my ey]; simpl; try done;
    try (by destruct sx, sy).
  destruct (SFdiv_core_binary prec emax (Z.pos mx) ex (Z.pos my) ey) as [[mz ez] lz].
  rewrite (binary_round_aux_sign (xorb (negb sx) sy)),
    (binary_round_aux_sign (xorb sx sy)).
  destruct (binary_round_aux prec emax false _ _ _); simpl; try done;
    by destruct sx, sy.
Qed.

(** [side] and [pitch] are odd: the opposite argument gives the opposite
    result, zeros and infinities included. *)
Theorem side_pitch_odd (x : Float64.float) :
  side (Float64.neg x) = Float64.neg (side x) /\
  pitch (Float64.neg x) = Float64.neg (pitch x).
Proof. split; [apply SFdiv_opp_l|apply SFmul_opp_l]. Qed.

